(** * Minesweeper (src/minesweeper/minesweeper.py): a shallow embedding

    The game keeps three numpy arrays of one shape: the mine map (0/1), the
    value map (-1 for a mine, else the number of adjacent mines) and the
    visibility map (0 hidden, 1 revealed, -1 flagged).  Arrays are modelled
    as lists of rows of [Z]; Python exceptions are modelled by [result].

    Part 1 holds the definitions, translated function by function from the
    source; Part 2 holds the lemmas and the theorems about them. *)

From Stdlib Require Import ZArith Lia String Ascii.
From Equations Require Import Equations.
From stdpp Require Import base relations list strings.

Open Scope Z_scope.

(* ===================================================================== *)
(** * Part 1: definitions *)
(* ===================================================================== *)

(** ** Python exceptions *)

Inductive exn := IndexError | ValueError | EOFError.

Inductive result (A : Type) :=
| Ok (a : A)
| Raise (e : exn).
Arguments Ok {A} a.
Arguments Raise {A} e.

Definition rbind {A B} (m : result A) (k : A -> result B) : result B :=
  match m with
  | Ok a => k a
  | Raise e => Raise e
  end.

Notation "x <~ m ;; k" := (rbind m (fun x => k))
  (at level 100, m at next level, right associativity).

(** ** Characters and strings *)

(** Strings are sequences of characters with code points below 256; the
    program only inspects letters, digits, signs and whitespace. *)

Definition chr (z : Z) : ascii := ascii_of_N (Z.to_N z).
Definition ord (c : ascii) : Z := Z.of_N (N_of_ascii c).

(** ** Coordinate codec: [int_to_letters], [letters_to_int] *)

(** The [while value > 0] loop of [int_to_letters]; [//] and [%] are
    Python's floor division and modulus, which agree with [Z.div] and
    [Z.modulo] for the positive divisor 26. *)
Equations? int_to_letters_loop (value : Z) (letter : string) : string
  by wf (Z.to_nat value) lt :=
  int_to_letters_loop value letter with Z_gt_dec value 0 := {
    | left _ =>
        int_to_letters_loop ((value - 1) / 26)
          (String (chr ((value - 1) mod 26 + 65)) letter);
    | right _ => letter }.
Proof.
  assert ((value - 1) / 26 < value) by (apply Z.div_lt_upper_bound; lia).
  lia.
Qed.

Definition int_to_letters (value : Z) : string :=
  int_to_letters_loop value "".

(** One round of the [for i in range(len(letters))] loop. *)
Definition letters_to_int_step (letters : string) (value : Z) (i : nat) : Z :=
  match String.get (String.length letters - i - 1) letters with
  | Some char =>
      if (65 <=? ord char) && (ord char <? 91)
      then value + (ord char - 64) * 26 ^ Z.of_nat i
      else if (97 <=? ord char) && (ord char <? 123)
      then value + (ord char - 96) * 26 ^ Z.of_nat i
      else value
  | None => value
  end.

Definition letters_to_int (letters : string) : Z :=
  foldl (letters_to_int_step letters) 0 (seq 0 (String.length letters)) - 1.

(** ASCII case mapping, as [str.upper] and [str.lower] act on letters. *)
Definition upper_char (c : ascii) : ascii :=
  if (97 <=? ord c) && (ord c <? 123) then chr (ord c - 32) else c.
Definition lower_char (c : ascii) : ascii :=
  if (65 <=? ord c) && (ord c <? 91) then chr (ord c + 32) else c.

Fixpoint string_map (f : ascii -> ascii) (s : string) : string :=
  match s with
  | EmptyString => EmptyString
  | String c s' => String (f c) (string_map f s')
  end.

Definition upper := string_map upper_char.
Definition lower := string_map lower_char.

(** The value a letter stands for ([A] or [a] is 1, [Z] or [z] is 26), and
    what the loop of [letters_to_int] accumulates; both are used to state
    and prove the properties of the codec. *)
Definition digit (c : ascii) : Z :=
  if (65 <=? ord c) && (ord c <? 91) then ord c - 64
  else if (97 <=? ord c) && (ord c <? 123) then ord c - 96
  else 0.

Definition weight (letters : string) : Z :=
  foldl (letters_to_int_step letters) 0 (seq 0 (String.length letters)).

(** ** numpy arrays *)

Abbreviation ndarray := (list (list Z)).
Abbreviation boolarray := (list (list bool)).

Definition rows {A} (a : list (list A)) : nat := length a.
Definition cols {A} (a : list (list A)) : nat :=
  match a with
  | [] => 0%nat
  | row :: _ => length row
  end.

(** The lengths of the rows; two arrays have one shape when these agree. *)
Definition dims {A} (a : list (list A)) : list nat := length <$> a.

(** [a] is a numpy array of [h] rows and [w] columns. *)
Definition is_array {A} (h w : nat) (a : list (list A)) : Prop :=
  length a = h /\ Forall (fun row => length row = w) a.

Definition cell {A} (a : list (list A)) (r c : nat) : option A :=
  a !! r ≫= (.!! c).

(** An index along an axis of length [n]: negative indices count from the
    end, anything else out of range raises. *)
Definition np_index (n : nat) (i : Z) : result nat :=
  if (0 <=? i) && (i <? Z.of_nat n) then Ok (Z.to_nat i)
  else if (- Z.of_nat n <=? i) && (i <? 0) then Ok (Z.to_nat (Z.of_nat n + i))
  else Raise IndexError.

(** The cell that [a[pos[0], pos[1]]] names. *)
Definition locate {A} (a : list (list A)) (pos : Z * Z) : result (nat * nat) :=
  r <~ np_index (rows a) pos.1 ;;
  c <~ np_index (cols a) pos.2 ;;
  Ok (r, c).

(** [a[pos[0], pos[1]]] *)
Definition getitem (a : ndarray) (pos : Z * Z) : result Z :=
  rc <~ locate a pos ;;
  match cell a rc.1 rc.2 with
  | Some v => Ok v
  | None => Raise IndexError
  end.

(** [a[pos[0], pos[1]] = v] *)
Definition setitem (a : ndarray) (pos : Z * Z) (v : Z) : result ndarray :=
  rc <~ locate a pos ;;
  Ok (alter (fun row => <[rc.2 := v]> row) rc.1 a).

(** [np.zeros((height, width))] *)
Definition np_zeros (height width : Z) : result ndarray :=
  if (height <? 0) || (width <? 0) then Raise ValueError
  else Ok (replicate (Z.to_nat height) (replicate (Z.to_nat width) 0)).

(** [np.zeros_like(a)] *)
Definition zeros_like (a : ndarray) : ndarray :=
  (fun row : list Z => (fun _ : Z => 0) <$> row) <$> a.

(** Elementwise comparison with a scalar: [a == v], [a != v], [a < v],
    [a >= v]. *)
Definition where_ (p : Z -> bool) (a : ndarray) : boolarray :=
  (fun row : list Z => p <$> row) <$> a.

(** [a[mask] = v]: a boolean index must have the shape of the array. *)
Definition paint (a : ndarray) (mask : boolarray) (v : Z) : ndarray :=
  zip_with (zip_with (fun x (b : bool) => if b then v else x)) a mask.

Definition setmask (a : ndarray) (mask : boolarray) (v : Z) : result ndarray :=
  if bool_decide (dims a = dims mask) then Ok (paint a mask v)
  else Raise IndexError.

(** [np.logical_and(a, b)] for two arrays of one shape. *)
Definition logical_and (a b : boolarray) : boolarray :=
  zip_with (zip_with andb) a b.

(** Broadcasting of one axis: equal lengths, or one of them is 1. *)
Definition broadcast_dim (n m : nat) : result nat :=
  if (n =? m)%nat then Ok n
  else if (n =? 1)%nat then Ok m
  else if (m =? 1)%nat then Ok n
  else Raise ValueError.

Definition stretch {A} (n : nat) (l : list A) : list A :=
  match l with
  | [x] => replicate n x
  | _ => l
  end.

Definition broadcast_to {A} (h w : nat) (a : list (list A)) : list (list A) :=
  stretch h (stretch w <$> a).

(** [np.logical_xor(a, b)], with numpy's broadcasting of the two shapes. *)
Definition logical_xor (a b : boolarray) : result boolarray :=
  h <~ broadcast_dim (rows a) (rows b) ;;
  w <~ broadcast_dim (cols a) (cols b) ;;
  Ok (zip_with (zip_with xorb) (broadcast_to h w a) (broadcast_to h w b)).

(** [np.any(a)] *)
Definition np_any (a : boolarray) : bool := existsb (existsb id) a.

(** The [int8] value a result is stored as. *)
Definition int8 (z : Z) : Z := (z + 128) mod 256 - 128.

(** Reading outside the array gives 0 ([mode='constant']). *)
Definition padded (a : ndarray) (r c : Z) : Z :=
  if (r <? 0) || (c <? 0) then 0
  else default 0 (cell a (Z.to_nat r) (Z.to_nat c)).

Definition offsets : list (Z * Z) :=
  [(-1, -1); (-1, 0); (-1, 1); (0, -1); (0, 0); (0, 1); (1, -1); (1, 0); (1, 1)].

Definition sumZ (l : list Z) : Z := foldr Z.add 0 l.

Definition window_sum (a : ndarray) (r c : nat) : Z :=
  sumZ ((fun d => padded a (Z.of_nat r + d.1) (Z.of_nat c + d.2)) <$> offsets).

(** [scipy.ndimage.convolve(a, RANGE, mode='constant')] for the 3x3 kernel
    of ones [RANGE], on an [int8] array: every cell becomes the sum of the
    3x3 window around it, the array being padded with zeros. *)
Definition convolve (a : ndarray) : ndarray :=
  imap (fun r row => imap (fun c _ => int8 (window_sum a r c)) row) a.

(** ** Connected components: [scipy.ndimage.label(a, structure=RANGE)] *)

(** Foreground cells are the non-zero ones. *)
Definition fg (a : ndarray) (p : nat * nat) : bool :=
  match cell a p.1 p.2 with
  | Some x => negb (x =? 0)
  | None => false
  end.

Definition bcell (m : boolarray) (p : nat * nat) : bool :=
  default false (cell m p.1 p.2).

(** The indices within distance 1 of [n]. *)
Definition around (n : nat) : list nat :=
  match n with
  | O => [0%nat; 1%nat]
  | S k => [k; n; S n]
  end.

(** The 3x3 window around [p] (the structuring element [RANGE]). *)
Definition window (p : nat * nat) : list (nat * nat) :=
  r ← around p.1; c ← around p.2; [(r, c)].

(** One round of region growing: a foreground cell joins the region when
    a cell of its window is in the region. *)
Definition grow (a : ndarray) (m : boolarray) : boolarray :=
  imap (fun r row =>
    imap (fun c (b : bool) =>
      b || (fg a (r, c) && existsb (bcell m) (window (r, c)))) row) m.

Definition seed_mask (a : ndarray) (p : nat * nat) : boolarray :=
  imap (fun r row => imap (fun c _ => bool_decide ((r, c) = p)) row) a.

(** The connected component of the foreground cell [p]: region growing
    from [p], once per cell of the array. *)
Definition flood (a : ndarray) (p : nat * nat) : boolarray :=
  Nat.iter (rows a * cols a) (grow a) (seed_mask a p).

(** The cells of the array in raster order. *)
Definition raster {A} (a : list (list A)) : list (nat * nat) :=
  r ← seq 0 (rows a); c ← seq 0 (cols a); [(r, c)].

(** A foreground cell that has no label yet starts the next component. *)
Definition label_step (a : ndarray) (st : ndarray * Z) (p : nat * nat)
  : ndarray * Z :=
  if fg a p && (default 0 (cell st.1 p.1 p.2) =? 0)
  then (paint st.1 (flood a p) (st.2 + 1), st.2 + 1)
  else st.

(** [label] returns the labelled array and the number of components;
    components are numbered from 1 in raster order, the background is 0. *)
Definition label (a : ndarray) : ndarray * Z :=
  foldl (label_step a) (zeros_like a, 0) (raster a).

(** ** Board generation: [init_map] *)

(** [range(n)] and [np.arange(n)] *)
Definition range (n : Z) : list Z := Z.of_nat <$> seq 0 (Z.to_nat n).

(** [np.setdiff1d(xs, ys)] for [xs] sorted and without repetition, as
    [np.arange] gives it. *)
Definition setdiff1d (xs ys : list Z) : list Z :=
  filter (fun x => x ∉ ys) xs.

(** [np.random.permutation]: the generator's draws are an explicit
    argument; each draw picks the next element among those left. *)
Fixpoint permutation (draws : list nat) (l : list Z) : list Z :=
  match draws with
  | [] => l
  | d :: ds =>
      match l !! (d mod length l)%nat with
      | Some x => x :: permutation ds (delete (d mod length l)%nat l)
      | None => l
      end
  end.

(** [l[:n]] *)
Definition slice_to (n : Z) (l : list Z) : list Z :=
  if 0 <=? n then take (Z.to_nat n) l
  else take (length l - Z.to_nat (- n)) l.

(** The body of the two [for] loops: the cell gets a mine when its flat
    index is among the chosen ones. *)
Definition place_mine (width : Z) (pos : list Z) (row : Z) (m : ndarray)
    (column : Z) : ndarray :=
  if bool_decide (row * width + column ∈ pos)
  then alter (fun l => <[Z.to_nat column := 1]> l) (Z.to_nat row) m
  else m.

Definition init_map (draws : list nat) (width height mines : Z)
    (avoid : Z * Z) : result ndarray :=
  new_map <~ np_zeros height width ;;
  let v := avoid.1 * width + avoid.2 in
  let avoids := [v - width - 1; v - width; v - width + 1;
                 v - 1; v; v + 1;
                 v + width - 1; v + width; v + width + 1] in
  let pos := slice_to mines
               (permutation draws (setdiff1d (range (width * height)) avoids)) in
  Ok (foldl (fun m row =>
        foldl (fun m column => place_mine width pos row m column) m (range width))
      new_map (range height)).

(** ** Board-size prompt: [get_mapinfo] *)

Definition MAX_SIZE : Z := 100.
Definition MAX_MINE_FACTOR : Z := 2.

Definition is_space (c : ascii) : bool :=
  let n := ord c in
  (n =? 32) || ((9 <=? n) && (n <=? 13)) || ((28 <=? n) && (n <=? 31))
  || (n =? 133) || (n =? 160).

(** [str.split()]: the maximal runs of characters that are not whitespace. *)
Fixpoint split_loop (s : string) (cur : string) : list string :=
  match s with
  | EmptyString =>
      match cur with
      | EmptyString => []
      | _ => [cur]
      end
  | String c s' =>
      if is_space c then
        match cur with
        | EmptyString => split_loop s' EmptyString
        | _ => cur :: split_loop s' EmptyString
        end
      else split_loop s' (cur +:+ String c EmptyString)
  end.

Definition split (s : string) : list string := split_loop s EmptyString.

Definition is_digit (c : ascii) : bool := (48 <=? ord c) && (ord c <? 58).

(** The digits of an integer literal, most significant first; single
    underscores may separate digits. [prev] tells whether the character
    before was a digit. *)
Fixpoint digits_loop (s : string) (acc : Z) (prev : bool) : option Z :=
  match s with
  | EmptyString => if prev then Some acc else None
  | String c s' =>
      if is_digit c then digits_loop s' (10 * acc + (ord c - 48)) true
      else if (ord c =? 95) && prev then digits_loop s' acc false
      else None
  end.

(** [int(s)] on a token without whitespace: an optional sign, then decimal
    digits; anything else raises [ValueError]. *)
Definition py_int (s : string) : result Z :=
  let body sign s' :=
    match digits_loop s' 0 false with
    | Some n => Ok (sign * n)
    | None => Raise ValueError
    end in
  match s with
  | String c s' =>
      if ord c =? 45 then body (-1) s'
      else if ord c =? 43 then body 1 s'
      else body 1 s
  | EmptyString => body 1 s
  end.

(** [l[i]] on a Python list, for a constant index [i >= 0]. *)
Definition list_item (l : list string) (i : nat) : result string :=
  match l !! i with
  | Some x => Ok x
  | None => Raise IndexError
  end.

(** What one round of the loop does after the [try] block. *)
Inductive verdict :=
| Return (width height mines : Z)
| Again (message : string).

(** The body of the [try] block. *)
Definition get_mapinfo_try (l : list string) : result verdict :=
  t0 <~ list_item l 0 ;; width <~ py_int t0 ;;
  t1 <~ list_item l 1 ;; height <~ py_int t1 ;;
  t2 <~ list_item l 2 ;; mines <~ py_int t2 ;;
  if (0 <? width) && (width <=? MAX_SIZE) && (0 <? height) && (height <=? MAX_SIZE)
  then
    if mines >=? 1 then
      if (width * height >? mines * MAX_MINE_FACTOR)
         && (mines <=? width * height - 3 * Z.min 3 (Z.min width height))
      then Ok (Return width height mines)
      else Ok (Again "Too many mines.")
    else Ok (Again "At least 1 mine must be present.")
  else Ok (Again "Dimension is too big or too small.").

(** [get_mapinfo] reads the lines typed at the prompt, [lines]; it gives
    what the call returns or raises, and the lines printed meanwhile.
    When the input ends, [input] raises [EOFError]. *)
Fixpoint get_mapinfo (lines : list string) : result (Z * Z * Z) * list string :=
  match lines with
  | [] => (Raise EOFError, [])
  | line :: rest =>
      let l := split line in
      let printed :=
        if bool_decide (length l ≠ 3%nat)
        then ["Number of inputs do not match."%string] else [] in
      match get_mapinfo_try l with
      | Ok (Return width height mines) => (Ok (width, height, mines), printed)
      | Ok (Again message) =>
          let '(res, out) := get_mapinfo rest in
          (res, printed ++ message :: out)
      | Raise ValueError =>
          let '(res, out) := get_mapinfo rest in
          (res, printed ++ "Please input integers."%string :: out)
      | Raise e => (Raise e, printed)
      end
  end.

(** ** Value map: [get_value] *)

Definition get_value (map : ndarray) : result ndarray :=
  let value := convolve map in
  setmask value (where_ (Z.eqb 1) map) (-1).

(** ** Visibility: [update_visible] *)

Definition update_visible (value visible : ndarray) (pos : Z * Z) (flag : bool)
  : result ndarray :=
  if flag then
    v <~ getitem visible pos ;;
    if v =? 0 then setitem visible pos (-1)
    else if v =? -1 then setitem visible pos 0
    else Ok visible
  else
    v <~ getitem visible pos ;;
    if v =? -1 then Ok visible
    else
      x <~ getitem value pos ;;
      if x =? 0 then
        let val_temp := value in
        val_temp <~ setmask val_temp (where_ (Z.eqb 0) val_temp) 9 ;;
        val_temp <~ setmask val_temp
          (logical_and (where_ (fun x => negb (x =? 0)) val_temp)
                       (where_ (fun x => x <? 9) val_temp)) 0 ;;
        let labeled := (label val_temp).1 in
        let vis_temp := zeros_like visible in
        here <~ getitem labeled pos ;;
        vis_temp <~ setmask vis_temp (where_ (Z.eqb here) labeled) 1 ;;
        let vis_temp := convolve vis_temp in
        setmask visible (where_ (fun x => x >=? 1) vis_temp) 1
      else setitem visible pos 1.

(** ** End of game: [check_end] *)

(** The three states [check_end] returns. *)
Definition Ongoing : Z := -1.
Definition Lost : Z := 0.
Definition Won : Z := 1.

Definition check_end (value visible : ndarray) (pos : Z * Z) : result Z :=
  x <~ getitem value pos ;;
  hit <~ (if x =? -1 then v <~ getitem visible pos ;; Ok (v =? 1) else Ok false) ;;
  if hit then Ok Lost
  else
    differ <~ logical_xor (where_ (fun x => negb (x =? -1)) value)
                          (where_ (Z.eqb 1) visible) ;;
    if negb (np_any differ) then Ok Won else Ok Ongoing.

(** ** Notions used in the statements *)

(** Every cell that is not a mine is Revealed. *)
Definition all_safe_revealed (value visible : ndarray) : Prop :=
  forall r c x, cell value r c = Some x -> x <> -1 -> cell visible r c = Some 1.

(** No mine is Revealed: every mine is Hidden or Flagged. *)
Definition no_mine_revealed (value visible : ndarray) : Prop :=
  forall r c, cell value r c = Some (-1) -> cell visible r c <> Some 1.

(** The flat indices that [init_map] avoids and the ones it chooses. *)
Definition avoided (width : Z) (avoid : Z * Z) : list Z :=
  let v := avoid.1 * width + avoid.2 in
  [v - width - 1; v - width; v - width + 1;
   v - 1; v; v + 1;
   v + width - 1; v + width; v + width + 1].

Definition candidates (width height : Z) (avoid : Z * Z) : list Z :=
  setdiff1d (range (width * height)) (avoided width avoid).

Definition chosen (draws : list nat) (width height mines : Z) (avoid : Z * Z)
  : list Z :=
  slice_to mines (permutation draws (candidates width height avoid)).

(** The number of mines of a mine map. *)
Definition mines_on (map : ndarray) : nat :=
  length (filter (fun p => cell map p.1 p.2 = Some 1) (raster map)).

(** A mine map holds 0 (no mine) or 1 (a mine) in every cell. *)
Definition mine_map (map : ndarray) : Prop :=
  forall r c x, cell map r c = Some x -> x = 0 \/ x = 1.

(** The cell at integer coordinates, when these are on the board. *)
Definition on_board (a : ndarray) (r c : Z) : option Z :=
  if (r <? 0) || (c <? 0) then None
  else cell a (Z.to_nat r) (Z.to_nat c).

Definition neighbour_offsets : list (Z * Z) :=
  [(-1, -1); (-1, 0); (-1, 1); (0, -1); (0, 1); (1, -1); (1, 0); (1, 1)].

(** The number of the (at most 8) neighbours of a cell that are on the
    board and hold a mine. *)
Definition adjacent_mines (map : ndarray) (r c : nat) : Z :=
  Z.of_nat (length (filter
    (fun d => on_board map (Z.of_nat r + d.1) (Z.of_nat c + d.2) = Some 1)
    neighbour_offsets)).

(** The constraints the board-size prompt puts on width, height and
    number of mines. *)
Definition valid_size (width height mines : Z) : Prop :=
  0 < width <= 100 /\ 0 < height <= 100 /\ 1 <= mines
  /\ width * height > 2 * mines
  /\ mines <= width * height - 3 * Z.min 3 (Z.min width height).

(** Two cells are adjacent when they differ by at most 1 in the row and in
    the column (8-connectivity; a cell is adjacent to itself). *)
Definition adjacent (p q : nat * nat) : Prop :=
  (p.1 <= S q.1 /\ q.1 <= S p.1 /\ p.2 <= S q.2 /\ q.2 <= S p.2)%nat.

(** Two adjacent foreground cells are linked; a connected component is a
    class of the reflexive and transitive closure of the links. *)
Definition linked (a : ndarray) (p q : nat * nat) : Prop :=
  adjacent p q /\ fg a p = true /\ fg a q = true.

Definition connected (a : ndarray) : relation (nat * nat) := rtc (linked a).

(** The number of cells of a mask that are set. *)
Definition count_row (row : list bool) : nat := length (filter (fun b => b = true) row).
Definition count_mask (m : boolarray) : nat := sum_list (count_row <$> m).

(** The array that [update_visible] labels ([val_temp]): the zeros of the
    value map become 9, the values below 9 that are not zero become 0. *)
Definition interchange (value : ndarray) : ndarray :=
  let val_temp := paint value (where_ (Z.eqb 0) value) 9 in
  paint val_temp
    (logical_and (where_ (fun x => negb (x =? 0)) val_temp)
                 (where_ (fun x => x <? 9) val_temp)) 0.

(** The cells a flood reveal from the cell [p] writes to: the component
    of [p] in [interchange value] and the cells adjacent to it. *)
Definition touched (value : ndarray) (p q : nat * nat) : Prop :=
  exists q', connected (interchange value) p q' /\ adjacent q' q.

(** A value map holds -1 (a mine) or a number of neighbours from 0 to 8. *)
Definition value_grid (value : ndarray) : Prop :=
  forall r c x, cell value r c = Some x -> -1 <= x <= 8.

(** The zero region of a cell: what can be reached from it through
    adjacent cells of value 0; and its closure, the region together with
    every cell adjacent to it. *)
Definition zero_cell (value : ndarray) (p : nat * nat) : Prop :=
  cell value p.1 p.2 = Some 0.

Definition zero_linked (value : ndarray) (p q : nat * nat) : Prop :=
  adjacent p q /\ zero_cell value p /\ zero_cell value q.

Definition zero_region (value : ndarray) : relation (nat * nat) :=
  rtc (zero_linked value).

Definition closure (value : ndarray) (target q : nat * nat) : Prop :=
  exists q', zero_region value target q' /\ adjacent q' q.

(** What holds of the labels while [label] scans the array: [lab] is the
    labelled array so far, [n] the number of components found, [seen] the
    cells already scanned. *)
Record labelling (h w : nat) (a : ndarray) (seen : list (nat * nat))
    (st : ndarray * Z) : Prop := {
  lab_array : is_array h w st.1;
  lab_range : forall q x, cell st.1 q.1 q.2 = Some x -> 0 <= x <= st.2;
  lab_component : forall q x,
    cell st.1 q.1 q.2 = Some x -> x <> 0 ->
    fg a q = true
    /\ forall q', cell st.1 q'.1 q'.2 = Some x <-> connected a q q';
  lab_seen : forall q,
    q ∈ seen -> fg a q = true ->
    exists x, cell st.1 q.1 q.2 = Some x /\ x <> 0
}.

(** The order on booleans by which region growing only adds cells. *)
Definition below (b1 b2 : bool) : Prop := b1 = true -> b2 = true.

(** ** Further notions: strings *)

(** Every character of the string satisfies [p]. *)
Fixpoint all_chars (p : ascii -> bool) (s : string) : bool :=
  match s with
  | EmptyString => true
  | String c s' => p c && all_chars p s'
  end.

Definition is_upper (c : ascii) : bool := (65 <=? ord c) && (ord c <? 91).
Definition is_lower (c : ascii) : bool := (97 <=? ord c) && (ord c <? 123).

(** [[A-Za-z]] *)
Definition is_alpha (c : ascii) : bool := is_upper c || is_lower c.

(** ** Decimal numerals: [str(n)] *)

(** The digits of [n >= 0], pushed in front of [acc]. *)
Equations? decimal_loop (n : Z) (acc : string) : string
  by wf (Z.to_nat n) lt :=
  decimal_loop n acc with Z_lt_dec n 10 := {
    | left _ => String (chr (48 + n)) acc;
    | right _ => decimal_loop (n / 10) (String (chr (48 + n mod 10)) acc) }.
Proof.
  assert (n / 10 < n) by (apply Z.div_lt; lia).
  assert (0 <= n / 10) by (apply Z.div_pos; lia).
  lia.
Qed.

Definition decimal (n : Z) : string := decimal_loop n "".

(** [str(n)] for an integer [n]. *)
Definition py_str (n : Z) : string :=
  if n <? 0 then String (chr 45) (decimal (- n)) else decimal n.

(** The number a string of digits denotes after the digits [acc]. *)
Fixpoint digits_value (s : string) (acc : Z) : Z :=
  match s with
  | EmptyString => acc
  | String c s' => digits_value s' (10 * acc + (ord c - 48))
  end.

(** ** The move prompt: [get_position] *)

(** The exception classes of the game. *)
Inductive signal := Quit | Restart | GameOver | Win.

(** How a prompt ends: it returns, or raises one of the game's
    exceptions, or fails with a Python exception. *)
Inductive ended (A : Type) :=
| Returned (a : A)
| Signalled (s : signal)
| Failed (e : exn).
Arguments Returned {A} a.
Arguments Signalled {A} s.
Arguments Failed {A} e.

Definition newline : string := String (chr 10) "".

(** The longest prefix of characters that satisfy [p], and the rest. *)
Fixpoint span (p : ascii -> bool) (s : string) : string * string :=
  match s with
  | EmptyString => (EmptyString, EmptyString)
  | String c s' =>
      if p c then (String c (span p s').1, (span p s').2)
      else (EmptyString, s)
  end.

(** [re.fullmatch('([A-Za-z]+)([0-9]+)([fF])?', pos)] and the three groups
    of the match; the character classes are disjoint, so each group is the
    longest run of its class. *)
Definition fullmatch (pos : string) : option (string * string * option string) :=
  let column_str := (span is_alpha pos).1 in
  let rest := (span is_alpha pos).2 in
  let row_str := (span is_digit rest).1 in
  let rest := (span is_digit rest).2 in
  match column_str, row_str with
  | EmptyString, _ => None
  | _, EmptyString => None
  | _, _ =>
      match rest with
      | EmptyString => Some (column_str, row_str, None)
      | String c EmptyString =>
          if (ord c =? 102) || (ord c =? 70)
          then Some (column_str, row_str, Some rest)
          else None
      | _ => None
      end
  end.

Definition help_text : string :=
  "Input position as [column][row] form. (e.g. A3, aC17)" +:+ newline +:+
  "To flag or unflag a cell, type [column][row]f. (e.g. h2f)" +:+ newline +:+
  "Input q to quit, and r to reset." +:+ newline.

(** [get_position] reads the lines typed at the prompt; it gives how the
    call ends and what it printed meanwhile. *)
Fixpoint get_position (width height : Z) (lines : list string)
  : ended (Z * Z * bool) * list string :=
  match lines with
  | [] => (Failed EOFError, [])
  | pos :: rest =>
      if bool_decide (pos ∈ ["Q"; "q"]) then (Signalled Quit, [])
      else if bool_decide (pos ∈ ["R"; "r"]) then (Signalled Restart, [])
      else if bool_decide (pos ∈ ["H"; "h"]) then
        (fun '(res, out) => (res, help_text :: out))
          (get_position width height rest)
      else
        match fullmatch pos with
        | None =>
            (fun '(res, out) => (res, ("Invalid position." +:+ newline) :: out))
              (get_position width height rest)
        | Some (column_str, row_str, is_flag) =>
            let column := letters_to_int column_str in
            match py_int row_str with
            | Raise e => (Failed e, [])
            | Ok n =>
                let row := n - 1 in
                let flag := match is_flag with Some _ => true | None => false end in
                if (0 <=? column) && (column <? width)
                   && (0 <=? row) && (row <? height)
                then (Returned (row, column, flag), [])
                else
                  (fun '(res, out) =>
                     (res, ("Position out of range." +:+ newline) :: out))
                    (get_position width height rest)
            end
        end
  end.


(** ** One move of a round: the body of the inner loop of [run_game] *)

(** [np.ones_like(a)] *)
Definition ones_like (a : ndarray) : ndarray :=
  (fun row : list Z => (fun _ : Z => 1) <$> row) <$> a.

(** After a move the round goes on with its two maps, or [GameOver] or
    [Win] is raised; the handler then draws the two maps. *)
Inductive moved :=
| GoesOn (value visible : ndarray)
| Ends (s : signal) (value visible : ndarray).

(** [board] is [None] until the first move has generated the maps
    ([value is None] in the source); [board_of] is the pair of maps the
    move is played on. *)
Definition board_of (draws : list nat) (width height mines : Z)
    (board : option (ndarray * ndarray)) (row column : Z)
  : result (ndarray * ndarray) :=
  match board with
  | Some vv => Ok vv
  | None =>
      map <~ init_map draws width height mines (row, column) ;;
      value <~ get_value map ;;
      Ok (value, zeros_like map)
  end.

Definition make_move (draws : list nat) (width height mines : Z)
    (board : option (ndarray * ndarray)) (row column : Z) (flag : bool)
  : result moved :=
  vv <~ board_of draws width height mines board row column ;;
  visible <~ update_visible vv.1 vv.2 (row, column) flag ;;
  end_ <~ check_end vv.1 visible (row, column) ;;
  if end_ =? 0 then Ok (Ends GameOver vv.1 visible)
  else if end_ =? 1 then Ok (Ends Win vv.1 (ones_like vv.1))
  else Ok (GoesOn vv.1 visible).

(** The maps of a round in play: the value map comes from a mine map of
    the board's shape, and no mine is Revealed. *)
Definition in_play (h w : nat) (value visible : ndarray) : Prop :=
  (exists map, is_array h w map /\ mine_map map /\ get_value map = Ok value)
  /\ is_array h w visible /\ no_mine_revealed value visible.

Definition board_in_play (h w : nat) (board : option (ndarray * ndarray))
  : Prop :=
  match board with
  | None => True
  | Some (value, visible) => in_play h w value visible
  end.

(** ** Display: [draw_map] *)

(** [NUM_WIDTH = len(str(MAX_SIZE))] *)
Definition NUM_WIDTH : nat := String.length (py_str MAX_SIZE).

(** The escape character of the ANSI codes. *)
Definition esc : string := String (chr 27) "".

(** The dictionary [cell] of the source, on its integer keys; a key that
    is not in the dictionary raises [KeyError]. *)
Definition glyph (key : Z) : option string :=
  if key =? 0 then Some (esc +:+ "[48;5;240m 0 " +:+ esc +:+ "[0m")
  else if key =? 1 then
    Some (esc +:+ "[48;5;088m" +:+ esc +:+ "[38;5;202m 1 " +:+ esc +:+ "[0m")
  else if key =? 2 then
    Some (esc +:+ "[48;5;130m" +:+ esc +:+ "[38;5;214m 2 " +:+ esc +:+ "[0m")
  else if key =? 3 then
    Some (esc +:+ "[48;5;136m" +:+ esc +:+ "[38;5;220m 3 " +:+ esc +:+ "[0m")
  else if key =? 4 then
    Some (esc +:+ "[48;5;064m" +:+ esc +:+ "[38;5;148m 4 " +:+ esc +:+ "[0m")
  else if key =? 5 then
    Some (esc +:+ "[48;5;022m" +:+ esc +:+ "[38;5;040m 5 " +:+ esc +:+ "[0m")
  else if key =? 6 then
    Some (esc +:+ "[48;5;024m" +:+ esc +:+ "[38;5;075m 6 " +:+ esc +:+ "[0m")
  else if key =? 7 then
    Some (esc +:+ "[48;5;018m" +:+ esc +:+ "[38;5;063m 7 " +:+ esc +:+ "[0m")
  else if key =? 8 then
    Some (esc +:+ "[48;5;053m" +:+ esc +:+ "[38;5;165m 8 " +:+ esc +:+ "[0m")
  else if key =? -1 then
    Some (esc +:+ "[48;5;215m" +:+ esc +:+ "[31;1m" +:+ esc +:+ "[1m M "
          +:+ esc +:+ "[0m")
  else None.

(** [cell[' ']] and [cell['F']] *)
Definition glyph_covered : string :=
  esc +:+ "[48;5;235m   " +:+ esc +:+ "[0m".
Definition glyph_flagged : string :=
  esc +:+ "[48;5;250m" +:+ esc +:+ "[38;5;236m F " +:+ esc +:+ "[0m".

(** [" " * n] *)
Fixpoint spaces (n : nat) : string :=
  match n with
  | O => ""
  | S n => String " " (spaces n)
  end.

(** ["{0:^{1}}".format(s, width)]: the padding is split with the smaller
    half on the left; a string that is too long is left as it is. *)
Definition center (s : string) (width : nat) : string :=
  let pad := (width - String.length s)%nat in
  spaces (Nat.div pad 2) +:+ s +:+ spaces (pad - Nat.div pad 2).

(** ["{0:>3}".format(n)] *)
Definition rjust (n : Z) : string :=
  spaces (3 - String.length (py_str n)) +:+ py_str n.

(** The line of column letters, printed above and below the rows. *)
Definition column_labels (ncols : nat) : string :=
  spaces NUM_WIDTH +:+ " "
  +:+ String.concat ""
        ((fun column : nat =>
            center (int_to_letters (Z.of_nat column + 1)) NUM_WIDTH)
         <$> seq 0 ncols)
  +:+ newline.

(** What a piece of [draw_map] does: it prints [out], or an array index
    is out of bounds, or [key] is not in the dictionary. *)
Inductive drawing :=
| Drawn (out : string)
| IndexFails
| KeyFails (key : Z).

(** Pieces run one after the other; the first failure ends the call. *)
Fixpoint draw_seq (ds : list drawing) : drawing :=
  match ds with
  | [] => Drawn ""
  | Drawn out :: ds =>
      match draw_seq ds with
      | Drawn rest => Drawn (out +:+ rest)
      | fails => fails
      end
  | fails :: _ => fails
  end.

(** The body of the inner loop: one cell of the board. A visibility that
    is none of 1, 0 and -1 prints nothing. *)
Definition draw_cell (value visible : ndarray) (row column : nat) : drawing :=
  match getitem visible (Z.of_nat row, Z.of_nat column) with
  | Raise _ => IndexFails
  | Ok v =>
      if v =? 1 then
        match getitem value (Z.of_nat row, Z.of_nat column) with
        | Raise _ => IndexFails
        | Ok x =>
            match glyph x with
            | Some text => Drawn text
            | None => KeyFails x
            end
        end
      else if v =? 0 then Drawn glyph_covered
      else if v =? -1 then Drawn glyph_flagged
      else Drawn ""
  end.

Definition draw_row (value visible : ndarray) (row : nat) : drawing :=
  draw_seq (Drawn (rjust (Z.of_nat row + 1) +:+ " ")
            :: (draw_cell value visible row <$> seq 0 (cols value))
            ++ [Drawn (rjust (Z.of_nat row + 1) +:+ newline)]).

(** [draw_map]: the text it prints after the screen is cleared. *)
Definition draw_map (value visible : ndarray) : drawing :=
  draw_seq (Drawn newline
            :: Drawn (column_labels (cols value))
            :: (draw_row value visible <$> seq 0 (rows value))
            ++ [Drawn (column_labels (cols value))]).

(* ===================================================================== *)
(** * Part 2: lemmas and theorems *)
(* ===================================================================== *)

(** ** The coordinate codec *)

Section Codec.

Lemma ord_chr (z : Z) : 0 <= z < 256 -> ord (chr z) = z.
Proof.
  intros Hz. unfold ord, chr.
  rewrite N_ascii_embedding by lia. lia.
Qed.

Lemma ord_bound (c : ascii) : 0 <= ord c < 256.
Proof.
  unfold ord. pose proof (N_ascii_bounded c). lia.
Qed.

Lemma foldl_ext_in {A B} (f g : A -> B -> A) (l : list B) (a : A) :
  (forall x b, b ∈ l -> f x b = g x b) -> foldl f a l = foldl g a l.
Proof.
  revert a. induction l as [|b l IH]; intros a Hfg; simpl; [done|].
  rewrite Hfg by left. apply IH. intros x b' Hb'. apply Hfg. by right.
Qed.

Lemma step_digit (letters : string) (value : Z) (i : nat) (c : ascii) :
  String.get (String.length letters - i - 1) letters = Some c ->
  letters_to_int_step letters value i = value + digit c * 26 ^ Z.of_nat i.
Proof.
  intros Hc. unfold letters_to_int_step, digit. rewrite Hc.
  repeat case_match; lia.
Qed.

Lemma weight_cons (c : ascii) (s : string) :
  weight (String c s) = weight s + digit c * 26 ^ Z.of_nat (String.length s).
Proof.
  unfold weight. cbn [String.length]. rewrite seq_S, foldl_app. cbn [foldl].
  rewrite (step_digit _ _ _ c).
  2: { cbn [String.length]. by replace (S (String.length s) - (0 + String.length s) - 1)%nat with 0%nat by lia. }
  f_equal. apply foldl_ext_in. intros x i Hi.
  apply elem_of_seq in Hi. unfold letters_to_int_step. cbn [String.length].
  replace (S (String.length s) - i - 1)%nat with (S (String.length s - i - 1)) by lia.
  reflexivity.
Qed.

Lemma append_cons (a : ascii) (s t : string) :
  String a s +:+ t = String a (s +:+ t).
Proof. reflexivity. Qed.

Lemma append_assoc (s t u : string) : (s +:+ t) +:+ u = s +:+ (t +:+ u).
Proof.
  induction s as [|a s IH]; [reflexivity|].
  by rewrite !append_cons, IH.
Qed.

Lemma length_snoc (s : string) (c : ascii) :
  String.length (s +:+ String c "") = S (String.length s).
Proof.
  induction s as [|a s IH]; simpl; [done | by rewrite IH].
Qed.

Lemma weight_snoc (s : string) (c : ascii) :
  weight (s +:+ String c "") = 26 * weight s + digit c.
Proof.
  induction s as [|a s IH].
  - change ("" +:+ String c "") with (String c ""). rewrite weight_cons. cbn. lia.
  - change (String a s +:+ String c "") with (String a (s +:+ String c "")).
    rewrite !weight_cons, IH.
    rewrite length_snoc.
    rewrite Nat2Z.inj_succ, Z.pow_succ_r by lia. lia.
Qed.

Lemma int_to_letters_loop_stop (value : Z) (letter : string) :
  value <= 0 -> int_to_letters_loop value letter = letter.
Proof.
  intros Hv. simp int_to_letters_loop.
  destruct (Z_gt_dec value 0); [lia | reflexivity].
Qed.

Lemma int_to_letters_loop_go (value : Z) (letter : string) :
  0 < value ->
  int_to_letters_loop value letter =
    int_to_letters_loop ((value - 1) / 26)
      (String (chr ((value - 1) mod 26 + 65)) letter).
Proof.
  intros Hv. rewrite int_to_letters_loop_equation_1.
  destruct (Z_gt_dec value 0); [reflexivity | lia].
Qed.

Lemma int_to_letters_loop_app (value : Z) (letter : string) :
  int_to_letters_loop value letter = int_to_letters value +:+ letter.
Proof.
  unfold int_to_letters.
  destruct (Z_le_gt_dec value 0) as [Hle|Hgt].
  { by rewrite !int_to_letters_loop_stop. }
  assert (0 <= value) as Hv by lia. clear Hgt.
  revert letter. pattern value. apply Z_lt_induction with (x := value); [|done].
  clear value Hv. intros n IH letter.
  destruct (Z_le_gt_dec n 0) as [Hle|Hgt].
  { by rewrite !int_to_letters_loop_stop. }
  rewrite !(int_to_letters_loop_go n) by lia.
  assert (0 <= (n - 1) / 26 < n) as Hq.
  { split; [apply Z.div_pos; lia | apply Z.div_lt_upper_bound; lia]. }
  rewrite (IH _ Hq (String _ letter)), (IH _ Hq (String _ "")).
  by rewrite append_assoc.
Qed.

Lemma int_to_letters_pos (n : Z) :
  0 < n ->
  int_to_letters n =
    int_to_letters ((n - 1) / 26) +:+ String (chr ((n - 1) mod 26 + 65)) "".
Proof.
  intros Hn. unfold int_to_letters at 1.
  rewrite int_to_letters_loop_go by done.
  apply int_to_letters_loop_app.
Qed.

Lemma int_to_letters_nonpos (n : Z) : n <= 0 -> int_to_letters n = "".
Proof. apply int_to_letters_loop_stop. Qed.

Lemma weight_int_to_letters (n : Z) : 0 <= n -> weight (int_to_letters n) = n.
Proof.
  intros Hn. generalize Hn. pattern n. apply Z_lt_induction with (x := n); [|done].
  clear n Hn. intros n IH Hn.
  destruct (Z.eq_dec n 0) as [->|Hne]; [reflexivity|].
  rewrite int_to_letters_pos, weight_snoc by lia.
  assert (0 <= (n - 1) mod 26 < 26) as Hr by (apply Z.mod_pos_bound; lia).
  assert (0 <= (n - 1) / 26 < n) as Hq.
  { split; [apply Z.div_pos; lia | apply Z.div_lt_upper_bound; lia]. }
  rewrite IH by lia.
  unfold digit. rewrite ord_chr by lia.
  replace ((65 <=? (n - 1) mod 26 + 65) && ((n - 1) mod 26 + 65 <? 91)) with true
    by (symmetry; apply andb_true_iff; split; lia).
  pose proof (Z.div_mod (n - 1) 26). lia.
Qed.

Lemma length_string_map (f : ascii -> ascii) (s : string) :
  String.length (string_map f s) = String.length s.
Proof. induction s as [|a s IH]; simpl; [done | by rewrite IH]. Qed.

Lemma digit_lower_char (c : ascii) : digit (lower_char c) = digit c.
Proof.
  unfold lower_char. pose proof (ord_bound c) as Hc.
  destruct ((65 <=? ord c) && (ord c <? 91)) eqn:Hup; [|done].
  apply andb_true_iff in Hup as [H1 H2].
  unfold digit. rewrite ord_chr by lia.
  rewrite H1, H2. simpl.
  replace (65 <=? ord c + 32) with true by lia.
  replace (ord c + 32 <? 91) with false by lia.
  replace (97 <=? ord c + 32) with true by lia.
  replace (ord c + 32 <? 123) with true by lia.
  simpl. lia.
Qed.

Lemma digit_upper_char (c : ascii) : digit (upper_char c) = digit c.
Proof.
  unfold upper_char. pose proof (ord_bound c) as Hc.
  destruct ((97 <=? ord c) && (ord c <? 123)) eqn:Hlo; [|done].
  apply andb_true_iff in Hlo as [H1 H2].
  unfold digit. rewrite ord_chr by lia.
  rewrite H1, H2.
  replace (65 <=? ord c - 32) with true by lia.
  replace (ord c - 32 <? 91) with true by lia.
  replace (65 <=? ord c) with true by lia.
  replace (ord c <? 91) with false by lia.
  simpl. lia.
Qed.

Lemma weight_string_map (f : ascii -> ascii) (s : string) :
  (forall c, digit (f c) = digit c) -> weight (string_map f s) = weight s.
Proof.
  intros Hf. induction s as [|a s IH]; [reflexivity|].
  simpl. by rewrite !weight_cons, IH, Hf, length_string_map.
Qed.

(** C10: for every [n <= 0] the loop of [int_to_letters] is never
    entered and the function returns the empty string. *)
Theorem int_to_letters_nonpositive (n : Z) :
  n <= 0 -> int_to_letters n = "".
Proof. apply int_to_letters_nonpos. Qed.

Lemma int_to_letters_nonpositive_witness :
  -3 <= 0 /\ int_to_letters (-3) = "".
Proof.
  split; [lia | apply (int_to_letters_nonpositive (-3)); lia].
Defined.

(** C9: decoding the label of [n >= 1] gives [n - 1], the 0-based column;
    "A", "Z" and "AA" decode to 0, 25 and 26; and the decoder does not
    distinguish upper from lower case. *)
Theorem letters_to_int_int_to_letters (n : Z) :
  1 <= n ->
  letters_to_int (int_to_letters n) = n - 1
  /\ letters_to_int "A" = 0
  /\ letters_to_int "Z" = 25
  /\ letters_to_int "AA" = 26
  /\ (forall s, letters_to_int (lower s) = letters_to_int s
              /\ letters_to_int (upper s) = letters_to_int s).
Proof.
  intros Hn. split; [|split; [|split; [|split]]]; try reflexivity.
  - change (weight (int_to_letters n) - 1 = n - 1).
    rewrite weight_int_to_letters; lia.
  - intros s. change (weight (lower s) - 1 = weight s - 1
                      /\ weight (upper s) - 1 = weight s - 1).
    unfold lower, upper.
    rewrite !weight_string_map;
      auto using digit_lower_char, digit_upper_char.
Qed.

Lemma letters_to_int_int_to_letters_witness :
  1 <= 703
  /\ letters_to_int (int_to_letters 703) = 703 - 1
  /\ letters_to_int "A" = 0
  /\ letters_to_int "Z" = 25
  /\ letters_to_int "AA" = 26
  /\ (forall s, letters_to_int (lower s) = letters_to_int s
              /\ letters_to_int (upper s) = letters_to_int s).
Proof.
  split; [lia|]. apply (letters_to_int_int_to_letters 703). lia.
Defined.

End Codec.

(** ** Arrays: cells, indices and shapes *)

Section Arrays.
Context {A B C : Type}.

Lemma rbind_Ok {X Y} (m : result X) (k : X -> result Y) (y : Y) :
  rbind m k = Ok y <-> exists x, m = Ok x /\ k x = Ok y.
Proof.
  destruct m as [x|e]; simpl; split.
  - eauto.
  - intros (x' & Hx & Hk). by injection Hx as ->.
  - done.
  - intros (x' & Hx & Hk). done.
Qed.

Lemma np_index_lt (n : nat) (i : Z) (k : nat) :
  np_index n i = Ok k -> (k < n)%nat.
Proof.
  unfold np_index. intros Hk.
  repeat case_match; simplify_eq; lia.
Qed.

Lemma np_index_of_nat (n k : nat) :
  (k < n)%nat -> np_index n (Z.of_nat k) = Ok k.
Proof.
  intros Hk. unfold np_index.
  replace ((0 <=? Z.of_nat k) && (Z.of_nat k <? Z.of_nat n)) with true
    by (symmetry; apply andb_true_iff; lia).
  by rewrite Nat2Z.id.
Qed.

Lemma locate_lt (a : list (list A)) (pos : Z * Z) (r c : nat) :
  locate a pos = Ok (r, c) -> (r < rows a)%nat /\ (c < cols a)%nat.
Proof.
  unfold locate. intros H.
  apply rbind_Ok in H as (r' & Hr & H).
  apply rbind_Ok in H as (c' & Hc & H). simplify_eq.
  eauto using np_index_lt.
Qed.

Lemma locate_of_nat (a : list (list A)) (r c : nat) :
  (r < rows a)%nat -> (c < cols a)%nat ->
  locate a (Z.of_nat r, Z.of_nat c) = Ok (r, c).
Proof.
  intros Hr Hc. unfold locate. simpl.
  by rewrite !np_index_of_nat.
Qed.

(** [locate] only looks at the shape. *)
Lemma locate_shape (a : list (list A)) (b : list (list B)) (pos : Z * Z) :
  rows a = rows b -> cols a = cols b -> locate a pos = locate b pos.
Proof. unfold locate. by intros -> ->. Qed.

Lemma cols_array (h w : nat) (a : list (list A)) :
  is_array h w a -> (0 < h)%nat -> cols a = w.
Proof.
  intros [Hlen Hall] Hh. destruct a as [|row a]; simpl in *; [lia|].
  by inversion Hall.
Qed.

Lemma rows_array (h w : nat) (a : list (list A)) :
  is_array h w a -> rows a = h.
Proof. by intros [Hlen _]. Qed.

Lemma cell_lt (h w : nat) (a : list (list A)) (r c : nat) (x : A) :
  is_array h w a -> cell a r c = Some x -> (r < h)%nat /\ (c < w)%nat.
Proof.
  intros [Hlen Hall] Hx. unfold cell in Hx.
  destruct (a !! r) as [row|] eqn:Hrow; simplify_eq/=.
  split.
  - by eapply lookup_lt_Some.
  - rewrite Forall_lookup in Hall. rewrite <- (Hall _ _ Hrow).
    by eapply lookup_lt_Some.
Qed.

Lemma cell_is_Some (h w : nat) (a : list (list A)) (r c : nat) :
  is_array h w a -> (r < h)%nat -> (c < w)%nat -> is_Some (cell a r c).
Proof.
  intros [Hlen Hall] Hr Hc. unfold cell.
  destruct (lookup_lt_is_Some_2 a r) as [row Hrow]; [lia|].
  rewrite Hrow. simpl. apply lookup_lt_is_Some_2.
  rewrite Forall_lookup in Hall. by rewrite (Hall _ _ Hrow).
Qed.

Lemma cell_None (h w : nat) (a : list (list A)) (r c : nat) :
  is_array h w a -> cell a r c = None <-> ~ ((r < h)%nat /\ (c < w)%nat).
Proof.
  intros Ha. split.
  - intros Hn [Hr Hc]. destruct (cell_is_Some h w a r c) as [x Hx]; auto.
    congruence.
  - intros Hn. destruct (cell a r c) as [x|] eqn:Hx; [|done].
    destruct Hn. by eapply cell_lt.
Qed.

(** Two arrays with the same cells are the same array. *)
Lemma array_eq (h w : nat) (a b : list (list A)) :
  is_array h w a -> is_array h w b ->
  (forall r c, cell a r c = cell b r c) -> a = b.
Proof.
  intros [Hla Ha] [Hlb Hb] Hcell.
  apply list_eq_same_length with h; [done..|].
  intros r x y Hr Hx Hy.
  rewrite Forall_lookup in Ha, Hb.
  apply list_eq_same_length with w; [by eauto..|].
  intros c u v Hc Hu Hv.
  specialize (Hcell r c). unfold cell in Hcell.
  rewrite Hx, Hy in Hcell. simpl in Hcell. congruence.
Qed.

Lemma cell_fmap (f : A -> B) (a : list (list A)) (r c : nat) :
  cell ((fun row : list A => f <$> row) <$> a) r c = f <$> cell a r c.
Proof.
  unfold cell. rewrite list_lookup_fmap.
  destruct (a !! r) as [row|]; simpl; [|done].
  by rewrite list_lookup_fmap.
Qed.

Lemma cell_zip_with (f : A -> B -> C) (a : list (list A)) (b : list (list B))
    (r c : nat) :
  cell (zip_with (zip_with f) a b) r c =
    match cell a r c, cell b r c with
    | Some x, Some y => Some (f x y)
    | _, _ => None
    end.
Proof.
  unfold cell. rewrite lookup_zip_with.
  destruct (a !! r) as [ra|]; simpl; [|done].
  destruct (b !! r) as [rb|]; simpl.
  - rewrite lookup_zip_with.
    destruct (ra !! c); simpl; [|done]. by destruct (rb !! c).
  - by destruct (ra !! c).
Qed.

Lemma cell_imap (g : nat -> nat -> A -> B) (a : list (list A)) (r c : nat) :
  cell (imap (fun r row => imap (fun c x => g r c x) row) a) r c =
    g r c <$> cell a r c.
Proof.
  unfold cell. rewrite list_lookup_imap.
  destruct (a !! r) as [row|]; simpl; [|done].
  by rewrite list_lookup_imap.
Qed.

Lemma is_array_fmap (f : A -> B) (h w : nat) (a : list (list A)) :
  is_array h w a -> is_array h w ((fun row : list A => f <$> row) <$> a).
Proof.
  intros [Hlen Hall]. split; [by rewrite length_fmap|].
  apply Forall_fmap. eapply Forall_impl; [done|].
  intros row Hrow. simpl. by rewrite length_fmap.
Qed.

Lemma is_array_imap (g : nat -> nat -> A -> B) (h w : nat) (a : list (list A)) :
  is_array h w a ->
  is_array h w (imap (fun r row => imap (fun c x => g r c x) row) a).
Proof.
  intros [Hlen Hall]. split; [by rewrite length_imap|].
  rewrite Forall_lookup in Hall. apply Forall_lookup. intros r row Hrow.
  rewrite list_lookup_imap in Hrow.
  destruct (a !! r) as [row'|] eqn:Hr; simplify_eq/=.
  rewrite length_imap. eauto.
Qed.

Lemma is_array_zip_with (f : A -> B -> C) (h w : nat)
    (a : list (list A)) (b : list (list B)) :
  is_array h w a -> is_array h w b ->
  is_array h w (zip_with (zip_with f) a b).
Proof.
  intros [Hla Ha] [Hlb Hb]. split; [rewrite length_zip_with; lia|].
  rewrite Forall_lookup in Ha. rewrite Forall_lookup in Hb.
  apply Forall_lookup. intros r row Hrow.
  apply lookup_zip_with_Some in Hrow as (x & y & -> & Hx & Hy).
  rewrite length_zip_with. rewrite (Ha _ _ Hx), (Hb _ _ Hy). lia.
Qed.

Lemma dims_array (h w : nat) (a : list (list A)) :
  is_array h w a -> dims a = replicate h w.
Proof.
  intros [Hlen Hall]. subst h. unfold dims.
  induction Hall as [|row a Hrow Hall IH]; csimpl; [done|].
  by f_equal.
Qed.

Lemma dims_fmap (f : A -> B) (a : list (list A)) :
  dims ((fun row : list A => f <$> row) <$> a) = dims a.
Proof.
  unfold dims. rewrite <- list_fmap_compose. apply list_fmap_ext.
  intros i row _. simpl. by rewrite length_fmap.
Qed.

Lemma dims_imap (g : nat -> nat -> A -> B) (a : list (list A)) :
  dims (imap (fun r row => imap (fun c x => g r c x) row) a) = dims a.
Proof.
  unfold dims. apply list_eq. intros r.
  rewrite !list_lookup_fmap, list_lookup_imap.
  destruct (a !! r); simpl; [|done]. by rewrite length_imap.
Qed.

End Arrays.

(** ** Reading and writing one cell *)

Section Items.

Lemma getitem_Ok (a : ndarray) (pos : Z * Z) (v : Z) :
  getitem a pos = Ok v <->
  exists r c, locate a pos = Ok (r, c) /\ cell a r c = Some v.
Proof.
  unfold getitem. rewrite rbind_Ok. split.
  - intros ([r c] & Hloc & Hv). exists r, c. split; [done|].
    simpl in Hv. destruct (cell a r c); by simplify_eq.
  - intros (r & c & Hloc & Hv). exists (r, c). split; [done|].
    simpl. by rewrite Hv.
Qed.

Lemma getitem_located (a : ndarray) (pos : Z * Z) (r c : nat) (v : Z) :
  locate a pos = Ok (r, c) -> cell a r c = Some v -> getitem a pos = Ok v.
Proof. intros. apply getitem_Ok. eauto. Qed.

Lemma setitem_located (a : ndarray) (pos : Z * Z) (r c : nat) (v : Z) :
  locate a pos = Ok (r, c) ->
  setitem a pos v = Ok (alter (fun row => <[c := v]> row) r a).
Proof. intros Hloc. unfold setitem. by rewrite Hloc. Qed.

Lemma cell_set {A} (a : list (list A)) (r c r' c' : nat) (v : A) :
  cell (alter (fun row => <[c := v]> row) r a) r' c' =
    if bool_decide ((r', c') = (r, c)) then (fun _ => v) <$> cell a r c
    else cell a r' c'.
Proof.
  unfold cell. destruct (decide (r = r')) as [<-|Hr].
  - rewrite list_lookup_alter_eq. destruct (a !! r) as [row|]; simpl.
    + destruct (decide (c = c')) as [<-|Hc].
      * rewrite bool_decide_eq_true_2 by done.
        destruct (row !! c) as [x|] eqn:Hx; simpl.
        -- apply list_lookup_insert_eq. by eapply lookup_lt_Some.
        -- apply lookup_ge_None. rewrite length_insert.
           by apply lookup_ge_None.
      * rewrite bool_decide_eq_false_2 by congruence.
        by rewrite list_lookup_insert_ne.
    + by case_bool_decide.
  - rewrite list_lookup_alter_ne by done.
    rewrite bool_decide_eq_false_2 by congruence. done.
Qed.

Lemma rows_set {A} (a : list (list A)) (r c : nat) (v : A) :
  rows (alter (fun row => <[c := v]> row) r a) = rows a.
Proof. apply length_alter. Qed.

Lemma cols_set {A} (a : list (list A)) (r c : nat) (v : A) :
  cols (alter (fun row => <[c := v]> row) r a) = cols a.
Proof.
  destruct a as [|row a]; [done|].
  destruct r; simpl; [apply length_insert | done].
Qed.

Lemma is_array_set {A} (h w : nat) (a : list (list A)) (r c : nat) (v : A) :
  is_array h w a -> is_array h w (alter (fun row => <[c := v]> row) r a).
Proof.
  intros [Hlen Hall]. split; [by rewrite length_alter|].
  rewrite Forall_lookup in Hall. apply Forall_lookup. intros i row Hrow.
  destruct (decide (r = i)) as [<-|Hne].
  - rewrite list_lookup_alter_eq in Hrow.
    destruct (a !! r) as [row'|] eqn:Hr; simplify_eq/=.
    rewrite length_insert. eauto.
  - rewrite list_lookup_alter_ne in Hrow by done. eauto.
Qed.

(** Writing back the value a cell had undoes a write to that cell. *)
Lemma set_set_back {A} (a : list (list A)) (r c : nat) (x v : A) :
  cell a r c = Some x ->
  alter (fun row => <[c := x]> row) r (alter (fun row => <[c := v]> row) r a) = a.
Proof.
  intros Hx. rewrite list_alter_alter_eq.
  apply list_eq. intros i. destruct (decide (r = i)) as [<-|Hne].
  - rewrite list_lookup_alter_eq. unfold cell in Hx.
    destruct (a !! r) as [row|]; simplify_eq/=.
    by rewrite list_insert_insert_eq, list_insert_id.
  - by rewrite list_lookup_alter_ne.
Qed.

End Items.

(** ** Flagging *)

Section Flagging.

(** C8: on a Hidden cell, the flag operation makes that one cell Flagged
    and changes no other cell; applied once more it gives back the
    visibility map it started from. *)
Theorem flag_unflag_round_trip (value visible : ndarray) (pos : Z * Z)
    (r c : nat) :
  locate visible pos = Ok (r, c) ->
  cell visible r c = Some 0 ->
  exists flagged,
    update_visible value visible pos true = Ok flagged
    /\ cell flagged r c = Some (-1)
    /\ (forall r' c', (r', c') <> (r, c) ->
          cell flagged r' c' = cell visible r' c')
    /\ update_visible value flagged pos true = Ok visible.
Proof.
  intros Hloc Hcell.
  exists (alter (fun row => <[c := -1]> row) r visible).
  assert (locate (alter (fun row => <[c := -1]> row) r visible) pos = Ok (r, c))
    as Hloc'.
  { rewrite <- Hloc. apply locate_shape; [apply rows_set | apply cols_set]. }
  assert (cell (alter (fun row => <[c := -1]> row) r visible) r c = Some (-1))
    as Hcell'.
  { rewrite cell_set, bool_decide_eq_true_2 by done. by rewrite Hcell. }
  split; [|split; [done|split]].
  - unfold update_visible. rewrite (getitem_located _ _ _ _ _ Hloc Hcell).
    simpl. by apply setitem_located.
  - intros r' c' Hne. by rewrite cell_set, bool_decide_eq_false_2.
  - unfold update_visible. rewrite (getitem_located _ _ _ _ _ Hloc' Hcell').
    simpl. rewrite (setitem_located _ _ _ _ _ Hloc').
    f_equal. by apply set_set_back.
Qed.

Lemma flag_unflag_round_trip_witness :
  let value := [[0; 1]; [1; -1]] in
  let visible := [[1; 0]; [-1; 0]] in
  locate visible (1, -1) = Ok (1%nat, 1%nat)
  /\ cell visible 1 1 = Some 0
  /\ exists flagged,
       update_visible value visible (1, -1) true = Ok flagged
       /\ cell flagged 1 1 = Some (-1)
       /\ (forall r' c', (r', c') <> (1%nat, 1%nat) ->
             cell flagged r' c' = cell visible r' c')
       /\ update_visible value flagged (1, -1) true = Ok visible.
Proof.
  intros value visible.
  split; [reflexivity|]. split; [reflexivity|].
  apply (flag_unflag_round_trip value visible (1, -1) 1 1); reflexivity.
Defined.

(** A flag command on a Revealed cell changes nothing. *)
Lemma flag_revealed_noop (value visible : ndarray) (pos : Z * Z) :
  getitem visible pos = Ok 1 ->
  update_visible value visible pos true = Ok visible.
Proof. intros Hv. unfold update_visible. by rewrite Hv. Qed.

End Flagging.

(** ** End of game *)

Section CheckEnd.

Lemma broadcast_dim_same (n : nat) : broadcast_dim n n = Ok n.
Proof. unfold broadcast_dim. by rewrite Nat.eqb_refl. Qed.

Lemma stretch_same {A} (n : nat) (l : list A) : length l = n -> stretch n l = l.
Proof. destruct l as [|x [|y l]]; simpl; intros <-; done. Qed.

Lemma broadcast_to_same {A} (h w : nat) (a : list (list A)) :
  is_array h w a -> broadcast_to h w a = a.
Proof.
  intros [Hlen Hall]. unfold broadcast_to.
  assert (stretch w <$> a = a) as ->.
  { clear Hlen. induction Hall as [|row a Hrow Hall IH]; csimpl; [done|].
    by rewrite stretch_same, IH. }
  by apply stretch_same.
Qed.

Lemma cols_same_shape {A B} (h w : nat) (a : list (list A)) (b : list (list B)) :
  is_array h w a -> is_array h w b -> cols a = cols b.
Proof.
  intros Ha Hb. destruct (decide (h = 0)%nat) as [->|Hh].
  - destruct Ha as [Ha _], Hb as [Hb _].
    by destruct a, b.
  - rewrite (cols_array h w a), (cols_array h w b); auto with lia.
Qed.

Lemma logical_xor_same (h w : nat) (a b : boolarray) :
  is_array h w a -> is_array h w b ->
  logical_xor a b = Ok (zip_with (zip_with xorb) a b).
Proof.
  intros Ha Hb. unfold logical_xor.
  rewrite <- (cols_same_shape h w a b), !broadcast_dim_same by done.
  rewrite (rows_array h w a), (rows_array h w b), broadcast_dim_same by done.
  simpl. destruct (decide (h = 0)%nat) as [->|Hh].
  - destruct Ha as [Ha _], Hb as [Hb _]. by destruct a, b.
  - rewrite (cols_array h w a) by (auto with lia).
    by rewrite !broadcast_to_same.
Qed.

Lemma existsb_false_lookup {A} (p : A -> bool) (l : list A) :
  existsb p l = false <-> forall i x, l !! i = Some x -> p x = false.
Proof.
  induction l as [|y l IH]; simpl.
  - split; [by intros _ i x | done].
  - rewrite orb_false_iff, IH. split.
    + intros [Hy Hl] [|i] x Hx; simplify_eq/=; eauto.
    + intros H. split; [by apply (H 0%nat) | intros i x Hx; by apply (H (S i))].
Qed.

Lemma np_any_false (m : boolarray) :
  np_any m = false <-> forall r c, cell m r c <> Some true.
Proof.
  unfold np_any. rewrite existsb_false_lookup. split.
  - intros H r c Hc. unfold cell in Hc.
    destruct (m !! r) as [row|] eqn:Hrow; simplify_eq/=.
    specialize (H _ _ Hrow). rewrite existsb_false_lookup in H.
    by specialize (H _ _ Hc).
  - intros H r row Hrow. apply existsb_false_lookup. intros c x Hx.
    destruct x; [|done]. destruct (H r c). unfold cell. by rewrite Hrow.
Qed.

(** The two tests of [check_end], on arrays of one shape. *)
Lemma check_end_located (h w : nat) (value visible : ndarray) (pos : Z * Z)
    (r c : nat) (x v : Z) :
  is_array h w value -> is_array h w visible ->
  locate value pos = Ok (r, c) ->
  cell value r c = Some x -> cell visible r c = Some v ->
  check_end value visible pos =
    Ok (if (x =? -1) && (v =? 1) then Lost
        else if np_any (zip_with (zip_with xorb)
                          (where_ (fun x => negb (x =? -1)) value)
                          (where_ (Z.eqb 1) visible))
             then Ongoing else Won).
Proof.
  intros Hval Hvis Hloc Hx Hv. unfold check_end.
  rewrite (getitem_located _ _ _ _ _ Hloc Hx). simpl.
  assert (getitem visible pos = Ok v) as Hgv.
  { eapply getitem_located; [|done]. rewrite <- Hloc.
    apply locate_shape.
    - by rewrite (rows_array h w value), (rows_array h w visible).
    - symmetry. by eapply cols_same_shape. }
  rewrite (logical_xor_same h w) by (by apply is_array_fmap).
  destruct (x =? -1) eqn:Hm; simpl.
  - rewrite Hgv. simpl. destruct (v =? 1); simpl; [done|].
    by destruct (np_any _).
  - by destruct (np_any _).
Qed.

(** The second test succeeds when the Revealed cells are exactly the
    cells without a mine. *)
Lemma xor_test_false (h w : nat) (value visible : ndarray) :
  is_array h w value -> is_array h w visible ->
  np_any (zip_with (zip_with xorb)
            (where_ (fun x => negb (x =? -1)) value)
            (where_ (Z.eqb 1) visible)) = false <->
  forall r c x v, cell value r c = Some x -> cell visible r c = Some v ->
    (x <> -1 <-> v = 1).
Proof.
  intros Hval Hvis. rewrite np_any_false. unfold where_. split.
  - intros H r c x v Hx Hv. specialize (H r c).
    rewrite cell_zip_with, !cell_fmap, Hx, Hv in H. cbn -[Z.eqb] in H.
    destruct (Z.eqb_spec x (-1)), (Z.eqb_spec 1 v); simpl in H;
      try done; lia.
  - intros H r c. rewrite cell_zip_with, !cell_fmap.
    destruct (cell value r c) as [x|] eqn:Hx; cbn -[Z.eqb]; [|done].
    destruct (cell visible r c) as [v|] eqn:Hv; cbn -[Z.eqb]; [|done].
    specialize (H r c x v Hx Hv).
    destruct (Z.eqb_spec x (-1)), (Z.eqb_spec 1 v); simpl; try done;
      intros _; lia.
Qed.

(** What [check_end] returns, in full: Lost has priority; otherwise Won
    needs the Revealed cells to be exactly the cells without a mine. *)
Lemma check_end_Won (h w : nat) (value visible : ndarray) (pos : Z * Z)
    (r c : nat) :
  is_array h w value -> is_array h w visible ->
  locate value pos = Ok (r, c) ->
  check_end value visible pos = Ok Won <->
  ~ (cell value r c = Some (-1) /\ cell visible r c = Some 1)
  /\ forall r c x v, cell value r c = Some x -> cell visible r c = Some v ->
       (x <> -1 <-> v = 1).
Proof.
  intros Hval Hvis Hloc.
  destruct (locate_lt _ _ _ _ Hloc) as [Hr Hc].
  rewrite (rows_array h w value) in Hr by done.
  rewrite (cols_array h w value) in Hc by (done || lia).
  destruct (cell_is_Some h w value r c) as [x Hx]; [done..|].
  destruct (cell_is_Some h w visible r c) as [v Hv]; [done..|].
  rewrite (check_end_located h w _ _ _ r c x v) by done.
  rewrite <- (xor_test_false h w) by done.
  rewrite Hx, Hv.
  destruct (Z.eqb_spec x (-1)) as [->|Hx1], (Z.eqb_spec v 1) as [->|Hv1];
    simpl; destruct (np_any _); unfold Won, Lost, Ongoing;
    split; try (intros [H1 H2]); try intros H; try done;
    try (split; [|done]; intros [? ?]; congruence).
  destruct H1. done.
Qed.

(** C1, as the code has it: a Revealed mine under the last move gives
    Lost; and on a board where no mine is Revealed (each mine is Hidden
    or Flagged), [check_end] returns Won exactly when every cell without a
    mine is Revealed. *)
Theorem check_end_won_iff_safe_revealed (h w : nat)
    (value visible : ndarray) (pos : Z * Z) :
  is_array h w value -> is_array h w visible ->
  (exists rc, locate value pos = Ok rc) ->
  (getitem value pos = Ok (-1) -> getitem visible pos = Ok 1 ->
     check_end value visible pos = Ok Lost)
  /\ (no_mine_revealed value visible ->
        (check_end value visible pos = Ok Won <->
         all_safe_revealed value visible)).
Proof.
  intros Hval Hvis [[r c] Hloc]. split.
  - intros Hmine Hshown. unfold check_end. rewrite Hmine. simpl.
    by rewrite Hshown.
  - intros Hnone. rewrite (check_end_Won h w _ _ _ r c) by done. split.
    + intros [_ Hall] r' c' x Hx Hsafe.
      destruct (cell_lt h w _ _ _ _ Hval Hx) as [Hr Hc].
      destruct (cell_is_Some h w visible r' c') as [v Hv]; [done..|].
      rewrite Hv. f_equal. by apply (Hall r' c' x v).
    + intros Hall. split.
      * intros [Hmine Hshown]. by apply (Hnone r c).
      * intros r' c' x v Hx Hv. split.
        -- intros Hsafe. specialize (Hall r' c' x Hx Hsafe). congruence.
        -- intros -> ->. by apply (Hnone r' c').
Qed.

Lemma check_end_won_iff_safe_revealed_witness :
  let value := [[-1; 1]; [1; 1]] in
  let visible := [[-1; 1]; [1; 1]] in
  is_array 2 2 value /\ is_array 2 2 visible
  /\ (exists rc, locate value (1, 0) = Ok rc)
  /\ no_mine_revealed value visible
  /\ all_safe_revealed value visible
  /\ check_end value visible (1, 0) = Ok Won.
Proof.
  intros value visible.
  assert (is_array 2 2 value) as Hval by (split; [done | by repeat constructor]).
  assert (exists rc, locate value (1, 0) = Ok rc) as Hloc by (by eexists).
  assert (no_mine_revealed value visible) as Hnone.
  { intros [|[|r]] [|[|c]] Hx; simplify_eq/=; done. }
  assert (all_safe_revealed value visible) as Hall.
  { intros [|[|r]] [|[|c]] x Hx Hsafe; cbv in Hx; by simplify_eq. }
  split; [done|]. split; [done|]. split; [done|]. split; [done|].
  split; [done|].
  destruct (check_end_won_iff_safe_revealed 2 2 value visible (1, 0)
              Hval Hval Hloc) as [_ Hwon].
  by apply Hwon.
Defined.

(** C1 as stated fails: here every cell without a mine is Revealed, and
    so is the mine; [check_end] answers Lost for a last move on the
    mine, and Ongoing for a last move elsewhere, never Won. *)
Lemma check_end_revealed_mine_not_won :
  let value := [[-1; 1]] in
  let visible := [[1; 1]] in
  all_safe_revealed value visible
  /\ check_end value visible (0, 0) = Ok Lost
  /\ check_end value visible (0, 1) = Ok Ongoing.
Proof.
  intros value visible. split; [|split; reflexivity].
  intros r c x Hx Hsafe.
  destruct r as [|r]; [|done].
  destruct c as [|[|c]]; simplify_eq/=; done.
Qed.

End CheckEnd.

(** ** The value map *)

Section Values.

Lemma setmask_Ok (a : ndarray) (mask : boolarray) (v : Z) :
  dims a = dims mask -> setmask a mask v = Ok (paint a mask v).
Proof. intros H. unfold setmask. by rewrite bool_decide_eq_true_2. Qed.

Lemma cell_paint (a : ndarray) (mask : boolarray) (v : Z) (r c : nat) :
  cell (paint a mask v) r c =
    match cell a r c, cell mask r c with
    | Some x, Some b => Some (if b then v else x)
    | _, _ => None
    end.
Proof.
  unfold paint.
  by rewrite (cell_zip_with (fun x (b : bool) => if b then v else x)).
Qed.

Lemma padded_on_board (a : ndarray) (r c : Z) :
  padded a r c = default 0 (on_board a r c).
Proof. unfold padded, on_board. by destruct ((r <? 0) || (c <? 0)). Qed.

Lemma on_board_of_nat (a : ndarray) (r c : nat) :
  on_board a (Z.of_nat r) (Z.of_nat c) = cell a r c.
Proof.
  unfold on_board.
  assert ((Z.of_nat r <? 0) = false) as -> by (apply Z.ltb_ge; lia).
  assert ((Z.of_nat c <? 0) = false) as -> by (apply Z.ltb_ge; lia).
  simpl. by rewrite !Nat2Z.id.
Qed.

Lemma on_board_mine_map (map : ndarray) (r c x : Z) :
  mine_map map -> on_board map r c = Some x -> x = 0 \/ x = 1.
Proof.
  intros Hmap. unfold on_board. case_match; [done|]. apply Hmap.
Qed.

(** On a mine map a padded read is 1 on a mine and 0 elsewhere. *)
Lemma padded_mine_map (map : ndarray) (r c : Z) :
  mine_map map ->
  padded map r c = if decide (on_board map r c = Some 1) then 1 else 0.
Proof.
  intros Hmap. rewrite padded_on_board.
  destruct (on_board map r c) as [x|] eqn:Hx; simpl.
  - destruct (on_board_mine_map _ _ _ _ Hmap Hx) as [-> | ->];
      first [done | by case_decide].
  - first [done | by case_decide].
Qed.

Lemma sumZ_indicator {A} (P : A -> Prop) `{forall x, Decision (P x)}
    (l : list A) :
  sumZ ((fun x => if decide (P x) then 1 else 0) <$> l) =
    Z.of_nat (length (filter P l)).
Proof.
  induction l as [|x l IH]; [done|].
  rewrite filter_cons. csimpl. unfold sumZ in *. simpl. rewrite IH.
  case_decide; simpl; lia.
Qed.

(** The window sum of a cell without a mine counts its neighbours with a
    mine. *)
Lemma window_sum_adjacent (map : ndarray) (r c : nat) :
  mine_map map -> cell map r c <> Some 1 ->
  window_sum map r c = adjacent_mines map r c.
Proof.
  intros Hmap Hfree. unfold window_sum, adjacent_mines.
  rewrite <- sumZ_indicator.
  rewrite (list_fmap_ext _
    (fun d => if decide (on_board map (Z.of_nat r + d.1) (Z.of_nat c + d.2)
                         = Some 1) then 1 else 0) offsets);
    [|intros; by apply padded_mine_map].
  unfold offsets, neighbour_offsets, sumZ. cbn [fmap list_fmap foldr fst snd].
  rewrite !Z.add_0_r, on_board_of_nat.
  rewrite (decide_False (P := cell map r c = Some 1)) by done. lia.
Qed.

Lemma adjacent_mines_bound (map : ndarray) (r c : nat) :
  0 <= adjacent_mines map r c <= 8.
Proof.
  unfold adjacent_mines.
  pose proof (length_filter
    (fun d => on_board map (Z.of_nat r + d.1) (Z.of_nat c + d.2) = Some 1)
    neighbour_offsets) as Hle.
  change (length neighbour_offsets) with 8%nat in Hle. lia.
Qed.

Lemma int8_small (z : Z) : -128 <= z < 128 -> int8 z = z.
Proof. intros Hz. unfold int8. rewrite Z.mod_small; lia. Qed.

Lemma get_value_Ok (map : ndarray) :
  get_value map = Ok (paint (convolve map) (where_ (Z.eqb 1) map) (-1)).
Proof.
  unfold get_value. apply setmask_Ok.
  unfold convolve, where_. by rewrite dims_imap, dims_fmap.
Qed.

Lemma cell_get_value (map value : ndarray) (r c : nat) :
  get_value map = Ok value ->
  cell value r c =
    (fun m => if 1 =? m then -1 else int8 (window_sum map r c))
      <$> cell map r c.
Proof.
  rewrite get_value_Ok. intros [= <-].
  rewrite cell_paint. unfold convolve, where_.
  rewrite (cell_imap (fun r c _ => int8 (window_sum map r c))), cell_fmap.
  by destruct (cell map r c).
Qed.

(** C5: on a mine map of [h] rows and [w] columns, [get_value] gives an
    array of that shape in which a cell holds -1 exactly when it has a
    mine, and every other cell holds the number of its neighbours with a
    mine, a number from 0 to 8. *)
Theorem get_value_correct (h w : nat) (map : ndarray) :
  is_array h w map -> mine_map map ->
  exists value,
    get_value map = Ok value
    /\ is_array h w value
    /\ forall r c, (r < h)%nat -> (c < w)%nat ->
         exists m v,
           cell map r c = Some m /\ cell value r c = Some v
           /\ (v = -1 <-> m = 1)
           /\ (m <> 1 -> v = adjacent_mines map r c /\ 0 <= v <= 8).
Proof.
  intros Harr Hmap. eexists. split; [apply get_value_Ok|]. split.
  { unfold paint. apply is_array_zip_with.
    - by apply (is_array_imap (fun r c _ => int8 (window_sum map r c))).
    - by apply is_array_fmap. }
  intros r c Hr Hc.
  destruct (cell_is_Some h w map r c) as [m Hm]; [done..|].
  exists m. eexists. split; [done|]. split.
  { rewrite (cell_get_value map _ r c (get_value_Ok map)), Hm. done. }
  pose proof (adjacent_mines_bound map r c) as Hbound.
  destruct (Z.eqb_spec 1 m) as [<-|Hne].
  - split; [done|]. intros Hne. done.
  - rewrite window_sum_adjacent by (done || congruence).
    rewrite int8_small by lia. split; [|done]. lia.
Qed.

Lemma get_value_correct_witness :
  let map := [[0; 1; 0]; [0; 0; 0]; [1; 0; 1]] in
  is_array 3 3 map /\ mine_map map
  /\ exists value,
       get_value map = Ok value
       /\ is_array 3 3 value
       /\ forall r c, (r < 3)%nat -> (c < 3)%nat ->
            exists m v,
              cell map r c = Some m /\ cell value r c = Some v
              /\ (v = -1 <-> m = 1)
              /\ (m <> 1 -> v = adjacent_mines map r c /\ 0 <= v <= 8).
Proof.
  intros map.
  assert (is_array 3 3 map) as Harr by (split; [done | by repeat constructor]).
  assert (mine_map map) as Hmap.
  { intros [|[|[|r]]] [|[|[|c]]] x Hx; cbv in Hx; simplify_eq; auto. }
  split; [done|]. split; [done|].
  exact (get_value_correct 3 3 map Harr Hmap).
Defined.

End Values.

(** ** The board-size prompt *)

Section MapInfo.

Lemma get_mapinfo_try_Return (l : list string) (width height mines : Z) :
  get_mapinfo_try l = Ok (Return width height mines) ->
  valid_size width height mines.
Proof.
  unfold get_mapinfo_try. intros H.
  repeat (apply rbind_Ok in H as (? & _ & H)).
  unfold MAX_SIZE, MAX_MINE_FACTOR in H.
  repeat case_match; simplify_eq.
  unfold valid_size. lia.
Qed.

(** Whatever is typed, a triple that [get_mapinfo] returns satisfies the
    constraints. *)
Lemma get_mapinfo_returns_valid (lines out : list string)
    (width height mines : Z) :
  get_mapinfo lines = (Ok (width, height, mines), out) ->
  valid_size width height mines.
Proof.
  revert out. induction lines as [|line rest IH]; intros out H; [done|].
  cbn [get_mapinfo] in H.
  destruct (get_mapinfo_try (split line)) as [[w' h' m'|message]|e] eqn:Htry.
  - simplify_eq. by eapply get_mapinfo_try_Return.
  - destruct (get_mapinfo rest) as [res out']. simplify_eq. eauto.
  - destruct e; try (by simplify_eq).
    destruct (get_mapinfo rest) as [res out']. simplify_eq. eauto.
Qed.

(** C4 fails on a line with fewer than three tokens: the message about
    the number of inputs is printed, the loop goes on into the [try]
    block, and the [IndexError] of [l[2]] (here) or [l[0]] (on an empty
    line) reaches the caller, whatever is typed afterwards. *)
Theorem get_mapinfo_short_line_raises (rest : list string) :
  get_mapinfo ("5 5" :: rest)
    = (Raise IndexError, ["Number of inputs do not match."])
  /\ get_mapinfo ("" :: rest)
    = (Raise IndexError, ["Number of inputs do not match."]).
Proof. split; reflexivity. Qed.

(** With more than three tokens the message is printed as well, but the
    first three tokens are taken and the function returns at once. *)
Lemma get_mapinfo_long_line_returns (rest : list string) :
  get_mapinfo ("10 10 5 7" :: rest)
    = (Ok (10, 10, 5), ["Number of inputs do not match."]).
Proof. reflexivity. Qed.

Lemma py_int_raises (s : string) (e : exn) :
  py_int s = Raise e -> e = ValueError.
Proof.
  unfold py_int. intros H.
  repeat case_match; by simplify_eq.
Qed.

(** A line of three tokens never raises [IndexError]. *)
Lemma get_mapinfo_try_three (l : list string) :
  length l = 3%nat -> get_mapinfo_try l <> Raise IndexError.
Proof.
  destruct l as [|t0 [|t1 [|t2 [|t3 l]]]]; try done. intros _.
  unfold get_mapinfo_try, list_item.
  change ([t0; t1; t2] !! 0%nat) with (Some t0).
  change ([t0; t1; t2] !! 1%nat) with (Some t1).
  change ([t0; t1; t2] !! 2%nat) with (Some t2).
  cbn [rbind].
  destruct (py_int t0) as [width|e0] eqn:H0; cbn [rbind];
    [|apply py_int_raises in H0; by subst].
  destruct (py_int t1) as [height|e1] eqn:H1; cbn [rbind];
    [|apply py_int_raises in H1; by subst].
  destruct (py_int t2) as [mines|e2] eqn:H2; cbn [rbind];
    [|apply py_int_raises in H2; by subst].
  repeat (case_match; try done).
Qed.

End MapInfo.

(** ** Board generation *)

Section InitMap.

(** Whatever the draws, [permutation] only reorders. *)
Lemma permutation_Permutation (draws : list nat) (l : list Z) :
  permutation draws l ≡ₚ l.
Proof.
  revert l. induction draws as [|d ds IH]; intros l; simpl; [done|].
  destruct (l !! (d mod length l)%nat) as [x|] eqn:Hx; [|done].
  rewrite IH. symmetry. by apply delete_Permutation.
Qed.

Lemma permutation_nil (draws : list nat) : permutation draws [] = [].
Proof. by destruct draws. Qed.

(** *** The two loops *)

Ltac refute_members :=
  simplify_eq;
  match goal with
  | H : ~ _ |- _ =>
      destruct H; repeat split;
      by eauto using list_elem_of_here, list_elem_of_further
  end.

Ltac split_members :=
  repeat match goal with
    | H : _ /\ _ |- _ => destruct H
    | H : _ ∈ _ :: _ |- _ => apply elem_of_cons in H as [->|H]
    end.

Lemma cell_place_mine (width : Z) (pos : list Z) (r c r' c' : nat) (m : ndarray) :
  cell (place_mine width pos (Z.of_nat r) m (Z.of_nat c)) r' c' =
    if decide ((r', c') = (r, c) /\ Z.of_nat r * width + Z.of_nat c ∈ pos)
    then (fun _ => 1) <$> cell m r' c'
    else cell m r' c'.
Proof.
  unfold place_mine. rewrite !Nat2Z.id.
  case_bool_decide as Hin.
  - rewrite cell_set. case_bool_decide as Heq.
    + rewrite decide_True by done. by injection Heq as -> ->.
    + rewrite decide_False; [done|]. by intros [? _].
  - rewrite decide_False; [done|]. by intros [_ ?].
Qed.

Lemma cell_place_row (width : Z) (pos : list Z) (r : nat) (columns : list nat)
    (m : ndarray) (r' c' : nat) :
  cell (foldl (fun m column => place_mine width pos (Z.of_nat r) m column) m
          (Z.of_nat <$> columns)) r' c' =
    if decide (r' = r /\ c' ∈ columns
               /\ Z.of_nat r' * width + Z.of_nat c' ∈ pos)
    then (fun _ => 1) <$> cell m r' c'
    else cell m r' c'.
Proof.
  revert m. induction columns as [|c columns IH]; intros m; csimpl.
  { case_decide as H; [|done]. destruct H as (_ & Hc & _). by apply elem_of_nil in Hc. }
  rewrite IH, cell_place_mine.
  clear IH.
  repeat case_decide; destruct (cell m r' c'); try done; exfalso;
    split_members; refute_members.
Qed.

Lemma cell_place_rows (width : Z) (pos : list Z) (columns rows_ : list nat)
    (m : ndarray) (r' c' : nat) :
  cell (foldl (fun m row =>
          foldl (fun m column => place_mine width pos row m column) m
            (Z.of_nat <$> columns)) m (Z.of_nat <$> rows_)) r' c' =
    if decide (r' ∈ rows_ /\ c' ∈ columns
               /\ Z.of_nat r' * width + Z.of_nat c' ∈ pos)
    then (fun _ => 1) <$> cell m r' c'
    else cell m r' c'.
Proof.
  revert m. induction rows_ as [|r rows_ IH]; intros m; csimpl.
  { done. }
  rewrite IH, cell_place_row.
  clear IH.
  repeat case_decide; destruct (cell m r' c'); try done; exfalso;
    split_members; refute_members.
Qed.

Lemma is_array_place_mine (h w : nat) (width : Z) (pos : list Z) (row column : Z)
    (m : ndarray) :
  is_array h w m -> is_array h w (place_mine width pos row m column).
Proof.
  intros Hm. unfold place_mine. case_bool_decide; [|done]. by apply is_array_set.
Qed.

Lemma is_array_place_rows (h w : nat) (width : Z) (pos : list Z)
    (columns rows_ : list Z) (m : ndarray) :
  is_array h w m ->
  is_array h w (foldl (fun m row =>
      foldl (fun m column => place_mine width pos row m column) m columns)
    m rows_).
Proof.
  revert m. induction rows_ as [|r rows_ IH]; intros m Hm; simpl; [done|].
  apply IH. clear IH. revert m Hm.
  induction columns as [|c columns IH]; intros m Hm; simpl; [done|].
  apply IH. by apply is_array_place_mine.
Qed.

Lemma is_array_replicate {A} (h w : nat) (x : A) :
  is_array h w (replicate h (replicate w x)).
Proof.
  split; [by rewrite length_replicate|].
  apply Forall_replicate. by rewrite length_replicate.
Qed.

Lemma cell_replicate {A} (h w r c : nat) (x : A) :
  (r < h)%nat -> (c < w)%nat -> cell (replicate h (replicate w x)) r c = Some x.
Proof.
  intros Hr Hc. unfold cell. rewrite lookup_replicate_2 by done. simpl.
  by rewrite lookup_replicate_2.
Qed.

(** The map that [init_map] returns, cell by cell: the mines are the cells
    whose flat index is among the chosen ones. *)
Lemma init_map_cells (draws : list nat) (w h : nat) (mines : Z) (avoid : Z * Z) :
  exists map,
    init_map draws (Z.of_nat w) (Z.of_nat h) mines avoid = Ok map
    /\ is_array h w map
    /\ forall r c, (r < h)%nat -> (c < w)%nat ->
         cell map r c =
           Some (if decide (Z.of_nat r * Z.of_nat w + Z.of_nat c
                            ∈ chosen draws (Z.of_nat w) (Z.of_nat h) mines avoid)
                 then 1 else 0).
Proof.
  unfold init_map, np_zeros, chosen, candidates, avoided.
  assert ((Z.of_nat h <? 0) = false) as -> by (apply Z.ltb_ge; lia).
  assert ((Z.of_nat w <? 0) = false) as -> by (apply Z.ltb_ge; lia).
  cbn [orb rbind].
  set (pos := slice_to mines _).
  unfold range. rewrite !Nat2Z.id.
  eexists. split; [done|]. split.
  { apply is_array_place_rows, is_array_replicate. }
  intros r c Hr Hc. rewrite cell_place_rows, cell_replicate by done.
  case_decide as H1; case_decide as H2; try done.
  - destruct H2. by destruct H1 as (_ & _ & ?).
  - destruct H1. split; [apply elem_of_seq; lia|].
    split; [apply elem_of_seq; lia | done].
Qed.

(** *** The safe zone *)

Lemma elem_of_slice_to (n : Z) (l : list Z) (x : Z) :
  x ∈ slice_to n l -> x ∈ l.
Proof. unfold slice_to. case_match; apply subseteq_take. Qed.

Lemma chosen_candidate (draws : list nat) (width height mines : Z)
    (avoid : Z * Z) (x : Z) :
  x ∈ chosen draws width height mines avoid ->
  x ∈ range (width * height) /\ x ∉ avoided width avoid.
Proof.
  unfold chosen, candidates, setdiff1d. intros Hx%elem_of_slice_to.
  rewrite permutation_Permutation in Hx.
  apply list_elem_of_filter in Hx as [? ?]. done.
Qed.

(** The flat index of a cell adjacent to the centre is avoided. *)
Lemma adjacent_avoided (w ar ac r c : nat) :
  adjacent (ar, ac) (r, c) ->
  Z.of_nat r * Z.of_nat w + Z.of_nat c
    ∈ avoided (Z.of_nat w) (Z.of_nat ar, Z.of_nat ac).
Proof.
  unfold adjacent, avoided. simpl. intros Hadj.
  assert (Z.of_nat r = Z.of_nat ar - 1 \/ Z.of_nat r = Z.of_nat ar
          \/ Z.of_nat r = Z.of_nat ar + 1) as Hr by lia.
  assert (Z.of_nat c = Z.of_nat ac - 1 \/ Z.of_nat c = Z.of_nat ac
          \/ Z.of_nat c = Z.of_nat ac + 1) as Hc by lia.
  rewrite !elem_of_cons.
  destruct Hr as [->|[->| ->]], Hc as [->|[->| ->]]; lia.
Qed.

(** Whatever the draws and the number of mines, no mine is put on the
    centre or on a cell of the board adjacent to it. *)
Lemma init_map_safe_zone (draws : list nat) (w h : nat) (mines : Z)
    (ar ac r c : nat) (map : ndarray) :
  init_map draws (Z.of_nat w) (Z.of_nat h) mines (Z.of_nat ar, Z.of_nat ac)
    = Ok map ->
  (r < h)%nat -> (c < w)%nat -> adjacent (ar, ac) (r, c) ->
  cell map r c = Some 0.
Proof.
  intros Hmap Hr Hc Hadj.
  destruct (init_map_cells draws w h mines (Z.of_nat ar, Z.of_nat ac))
    as (map' & Hmap' & _ & Hcells).
  rewrite Hmap in Hmap'. injection Hmap' as <-.
  rewrite Hcells by done. case_decide as Hin; [|done].
  apply chosen_candidate in Hin as [_ Hin]. destruct Hin.
  by apply adjacent_avoided.
Qed.

(** *** The number of mines *)

Lemma length_filter_fmap_iff {A B} (f : A -> B) (P : A -> Prop) (Q : B -> Prop)
    `{!forall x, Decision (P x)} `{!forall y, Decision (Q y)} (l : list A) :
  (forall x, x ∈ l -> P x <-> Q (f x)) ->
  length (filter P l) = length (filter Q (f <$> l)).
Proof.
  induction l as [|x l IH]; intros Hext; [done|].
  csimpl. rewrite !filter_cons.
  specialize (IH (fun y Hy => Hext y (list_elem_of_further _ _ _ Hy))).
  pose proof (Hext x (list_elem_of_here _ _)) as Hx.
  destruct (decide (P x)) as [HP|HP], (decide (Q (f x))) as [HQ|HQ];
    simpl; try (by rewrite IH); tauto.
Qed.

Lemma bind_pair_row (r : nat) (columns : list nat) :
  (columns ≫= fun c => [(r, c)]) = (fun c => (r, c)) <$> columns.
Proof. induction columns as [|c columns IH]; csimpl; [done | by rewrite IH]. Qed.

(** In raster order the flat indices of the cells are 0, 1, 2, ... *)
Lemma flat_raster (h w : nat) :
  (fun p : nat * nat => (p.1 * w + p.2)%nat)
    <$> (seq 0 h ≫= fun r => seq 0 w ≫= fun c => [(r, c)])
  = seq 0 (h * w).
Proof.
  induction h as [|h IH]; [done|].
  rewrite seq_S, bind_app, fmap_app, IH. csimpl.
  rewrite app_nil_r, bind_pair_row, <- list_fmap_compose.
  replace (seq 0 (w + h * w)) with (seq 0 (h * w) ++ seq (h * w) w)
    by (change (seq (h * w) w) with (seq (0 + h * w) w);
        rewrite <- (seq_app (h * w) w 0); f_equal; lia).
  f_equal.
  replace (seq (h * w) w) with (Nat.add (h * w) <$> seq 0 w)
    by (rewrite fmap_add_seq; f_equal; lia).
  by apply list_fmap_ext.
Qed.

Lemma NoDup_range (n : Z) : NoDup (range n).
Proof.
  unfold range. apply (NoDup_fmap_2 Z.of_nat), NoDup_seq.
Qed.

Lemma NoDup_slice_to (n : Z) (l : list Z) : NoDup l -> NoDup (slice_to n l).
Proof.
  intros Hl. unfold slice_to.
  case_match; (eapply sublist_NoDup; [exact Hl | apply sublist_take]).
Qed.

Lemma NoDup_chosen (draws : list nat) (width height mines : Z) (avoid : Z * Z) :
  NoDup (chosen draws width height mines avoid).
Proof.
  unfold chosen, candidates, setdiff1d. apply NoDup_slice_to.
  rewrite permutation_Permutation. apply NoDup_filter, NoDup_range.
Qed.

Lemma length_chosen (draws : list nat) (width height mines : Z) (avoid : Z * Z) :
  0 <= mines ->
  (Z.to_nat mines <= length (candidates width height avoid))%nat ->
  length (chosen draws width height mines avoid) = Z.to_nat mines.
Proof.
  intros Hm Hroom. unfold chosen, slice_to.
  rewrite (proj2 (Z.leb_le 0 mines) Hm), length_take.
  rewrite permutation_Permutation. lia.
Qed.

(** The avoided indices remove at most nine candidates. *)
Lemma length_candidates (width height : Z) (avoid : Z * Z) :
  (length (range (width * height)) <=
     length (candidates width height avoid) + 9)%nat.
Proof.
  unfold candidates, setdiff1d.
  set (l := range (width * height)). set (ys := avoided width avoid).
  rewrite <- (filter_app_complement (fun x : Z => x ∉ ys) l) at 1.
  rewrite length_app.
  assert (length (filter (fun x : Z => ~ (x ∉ ys)) l) <= length ys)%nat as Hle.
  { apply submseteq_length, NoDup_submseteq.
    - apply NoDup_filter, NoDup_range.
    - intros x [Hx _]%list_elem_of_filter.
      by destruct (decide (x ∈ ys)). }
  change (length ys) with 9%nat in Hle. lia.
Qed.

(** The number of mines of the map is the number of chosen indices. *)
Lemma init_map_mines_on (draws : list nat) (w h : nat) (mines : Z)
    (avoid : Z * Z) (map : ndarray) :
  (0 < h)%nat ->
  init_map draws (Z.of_nat w) (Z.of_nat h) mines avoid = Ok map ->
  mines_on map = length (chosen draws (Z.of_nat w) (Z.of_nat h) mines avoid).
Proof.
  intros Hh Hmap.
  destruct (init_map_cells draws w h mines avoid)
    as (map' & Hmap' & Harr & Hcells).
  rewrite Hmap in Hmap'. injection Hmap' as <-.
  set (pos := chosen _ _ _ _ _) in *.
  unfold mines_on, raster.
  rewrite (rows_array h w map), (cols_array h w map) by done.
  rewrite (length_filter_fmap_iff
    (fun p : nat * nat => Z.of_nat (p.1 * w + p.2)) _ (fun z => z ∈ pos)).
  2: { intros [r c] Hp.
       apply list_elem_of_bind in Hp as (r0 & Hc & Hr).
       apply list_elem_of_bind in Hc as (c0 & Hq & Hc).
       apply list_elem_of_singleton in Hq. injection Hq as -> ->.
       apply elem_of_seq in Hr, Hc. simpl.
       rewrite Hcells by lia.
       replace (Z.of_nat (r0 * w + c0))
         with (Z.of_nat r0 * Z.of_nat w + Z.of_nat c0) by lia.
       case_decide; split; (done || congruence). }
  rewrite (list_fmap_compose (fun p : nat * nat => (p.1 * w + p.2)%nat) Z.of_nat).
  rewrite flat_raster.
  apply Permutation_length, NoDup_Permutation.
  - apply NoDup_filter, (NoDup_fmap_2 Z.of_nat), NoDup_seq.
  - apply NoDup_chosen.
  - intros x. rewrite list_elem_of_filter. split; [by intros [? _]|].
    intros Hx. split; [done|].
    apply chosen_candidate in Hx as [Hx _]. unfold range in Hx.
    replace (h * w)%nat with (Z.to_nat (Z.of_nat w * Z.of_nat h)) by lia.
    done.
Qed.

(** On a board at least three cells wide and three cells high, a size
    that passes the validation leaves room for all the mines: the map has
    exactly [mines] mines. *)
Lemma init_map_exact_count (draws : list nat) (w h : nat) (mines : Z)
    (avoid : Z * Z) (map : ndarray) :
  valid_size (Z.of_nat w) (Z.of_nat h) mines ->
  (3 <= w)%nat -> (3 <= h)%nat ->
  init_map draws (Z.of_nat w) (Z.of_nat h) mines avoid = Ok map ->
  Z.of_nat (mines_on map) = mines.
Proof.
  intros (Hw & Hh & Hm & Hhalf & Hroom) Hw3 Hh3 Hmap.
  rewrite (init_map_mines_on draws w h mines avoid) by (done || lia).
  rewrite length_chosen; [lia | lia |].
  pose proof (length_candidates (Z.of_nat w) (Z.of_nat h) avoid) as Hlen.
  unfold range in Hlen. rewrite length_fmap, length_seq in Hlen.
  rewrite Z.min_l in Hroom by lia. lia.
Qed.

(** C3 fails on a board one column wide: 1 x 5 with 2 mines passes the
    size validation, but for the safe centre (2, 0) the nine flat indices
    [v - width - 1 .. v + width + 1] are 0 .. 4 and cover the whole
    board, so no cell is left for a mine and the map has 0 mines, not 2,
    whatever the random draws. *)
Theorem init_map_one_column_no_mines (draws : list nat) :
  valid_size 1 5 2
  /\ init_map draws 1 5 2 (2, 0) = Ok [[0]; [0]; [0]; [0]; [0]].
Proof.
  split; [unfold valid_size; lia|].
  unfold init_map.
  change (setdiff1d (range (1 * 5)) _) with (@nil Z).
  by rewrite permutation_nil.
Qed.

End InitMap.

(** ** Region growing and connected components *)

Section Components.

Lemma elem_of_around (n k : nat) :
  k ∈ around n <-> (k <= S n /\ n <= S k)%nat.
Proof.
  destruct n as [|n]; simpl; rewrite ?elem_of_cons, elem_of_nil; lia.
Qed.

Lemma elem_of_window (p q : nat * nat) : q ∈ window p <-> adjacent p q.
Proof.
  unfold window, adjacent. destruct p as [r c], q as [r' c']. simpl.
  rewrite list_elem_of_bind. split.
  - intros (r0 & Hc & Hr). apply list_elem_of_bind in Hc as (c0 & Hq & Hc).
    apply list_elem_of_singleton in Hq. simplify_eq.
    apply elem_of_around in Hr, Hc. lia.
  - intros H. exists r'. split; [|apply elem_of_around; lia].
    apply list_elem_of_bind. exists c'.
    split; [by apply list_elem_of_singleton | apply elem_of_around; lia].
Qed.

Global Instance adjacent_refl : Reflexive adjacent.
Proof. intros p. unfold adjacent. lia. Qed.

Global Instance adjacent_sym : Symmetric adjacent.
Proof. intros p q. unfold adjacent. lia. Qed.

Lemma linked_sym (a : ndarray) (p q : nat * nat) : linked a p q -> linked a q p.
Proof. intros (Hadj & Hp & Hq). split; [by symmetry | by split]. Qed.

Lemma connected_sym (a : ndarray) (p q : nat * nat) :
  connected a p q -> connected a q p.
Proof.
  induction 1 as [|p q' q Hlink _ IH]; [apply rtc_refl|].
  eapply rtc_r; [done | by apply linked_sym].
Qed.

Lemma connected_trans (a : ndarray) (p q s : nat * nat) :
  connected a p q -> connected a q s -> connected a p s.
Proof. apply rtc_trans. Qed.

(** Whatever is connected to a foreground cell is a foreground cell. *)
Lemma connected_fg (a : ndarray) (p q : nat * nat) :
  connected a p q -> fg a p = true -> fg a q = true.
Proof.
  intros Hpq Hp. apply rtc_inv_r in Hpq as [<- | (q' & _ & _ & _ & Hq)]; done.
Qed.

Lemma fg_in_bounds (h w : nat) (a : ndarray) (p : nat * nat) :
  is_array h w a -> fg a p = true -> (p.1 < h)%nat /\ (p.2 < w)%nat.
Proof.
  intros Ha Hp. unfold fg in Hp.
  destruct (cell a p.1 p.2) as [x|] eqn:Hx; [|done]. by eapply cell_lt.
Qed.

Lemma bcell_true (m : boolarray) (p : nat * nat) :
  bcell m p = true <-> cell m p.1 p.2 = Some true.
Proof.
  unfold bcell. destruct (cell m p.1 p.2) as [[]|]; simpl; split; congruence.
Qed.

Lemma existsb_bcell_window (m : boolarray) (p : nat * nat) :
  existsb (bcell m) (window p) = true <->
  exists q, adjacent p q /\ bcell m q = true.
Proof.
  rewrite existsb_exists. split.
  - intros (q & Hq & Hm). exists q. split; [|done].
    apply elem_of_window. by apply list_elem_of_In.
  - intros (q & Hq & Hm). exists q. split; [|done].
    apply list_elem_of_In. by apply elem_of_window.
Qed.

Lemma cell_grow (a : ndarray) (m : boolarray) (r c : nat) :
  cell (grow a m) r c =
    (fun b : bool => b || (fg a (r, c) && existsb (bcell m) (window (r, c))))
      <$> cell m r c.
Proof.
  unfold grow.
  by rewrite (cell_imap
    (fun r c (b : bool) => b || (fg a (r, c) && existsb (bcell m) (window (r, c))))).
Qed.

Lemma bcell_grow (a : ndarray) (m : boolarray) (p : nat * nat) :
  bcell (grow a m) p = true <->
  bcell m p = true
  \/ (is_Some (cell m p.1 p.2) /\ fg a p = true
      /\ exists q, adjacent p q /\ bcell m q = true).
Proof.
  rewrite <- existsb_bcell_window. destruct p as [r c].
  unfold bcell at 1 2. rewrite cell_grow. simpl.
  destruct (cell m r c) as [b|]; simpl.
  - rewrite orb_true_iff, andb_true_iff. split.
    + intros [?|[? ?]]; [by left | right; eauto].
    + intros [?|(_ & ? & ?)]; auto.
  - split; [done|]. intros [?|([? ?] & _)]; done.
Qed.

Lemma is_array_grow (h w : nat) (a : ndarray) (m : boolarray) :
  is_array h w m -> is_array h w (grow a m).
Proof.
  intros Hm. unfold grow.
  by apply (is_array_imap
    (fun r c (b : bool) => b || (fg a (r, c) && existsb (bcell m) (window (r, c))))).
Qed.

Lemma is_array_seed_mask (h w : nat) (a : ndarray) (p : nat * nat) :
  is_array h w a -> is_array h w (seed_mask a p).
Proof.
  intros Ha. unfold seed_mask.
  by apply (is_array_imap (fun r c (_ : Z) => bool_decide ((r, c) = p))).
Qed.

Lemma bcell_seed_mask (a : ndarray) (p q : nat * nat) :
  bcell (seed_mask a p) q = true <-> q = p /\ is_Some (cell a p.1 p.2).
Proof.
  unfold bcell, seed_mask. destruct q as [r c].
  rewrite (cell_imap (fun r c (_ : Z) => bool_decide ((r, c) = p))). simpl.
  destruct (cell a r c) as [x|] eqn:Hx; simpl.
  - rewrite bool_decide_eq_true. split.
    + intros <-. simpl. rewrite Hx. eauto.
    + by intros [? _].
  - split; [done|]. intros [<- [x Hx']]. simpl in Hx'. congruence.
Qed.

Lemma is_array_iter_grow (h w : nat) (a : ndarray) (m : boolarray) (k : nat) :
  is_array h w m -> is_array h w (Nat.iter k (grow a) m).
Proof.
  intros Hm. induction k as [|k IH]; simpl; [done|]. by apply is_array_grow.
Qed.

(** Region growing from [p] stays inside the component of [p]. *)
Lemma iter_grow_sound (a : ndarray) (p q : nat * nat) (k : nat) :
  fg a p = true ->
  bcell (Nat.iter k (grow a) (seed_mask a p)) q = true -> connected a p q.
Proof.
  intros Hp. revert q. induction k as [|k IH]; intros q Hq; simpl in Hq.
  - apply bcell_seed_mask in Hq as [-> _]. apply rtc_refl.
  - apply bcell_grow in Hq as [Hq|(_ & Hfg & q' & Hadj & Hq')]; [by apply IH|].
    eapply rtc_r; [by apply IH|].
    split; [by symmetry|]. split; [|done].
    eapply connected_fg; [by apply IH | done].
Qed.

(** *** Region growing reaches a fixed point *)

Lemma count_row_below (l1 l2 : list bool) :
  Forall2 below l1 l2 ->
  (count_row l1 <= count_row l2)%nat
  /\ (l1 <> l2 -> (count_row l1 < count_row l2)%nat).
Proof.
  unfold count_row.
  induction 1 as [|b1 b2 l1 l2 Hb Hl [IHle IHlt]]; [done|].
  rewrite !filter_cons.
  destruct (decide (l1 = l2)) as [->|Hne].
  - destruct b1, b2; simpl; try (split; [lia | intros ?; done || lia]).
    by specialize (Hb eq_refl).
  - specialize (IHlt Hne).
    destruct b1, b2; simpl; try (split; [lia | intros ?; lia]).
    by specialize (Hb eq_refl).
Qed.

Lemma count_mask_below (m1 m2 : boolarray) :
  Forall2 (Forall2 below) m1 m2 ->
  (count_mask m1 <= count_mask m2)%nat
  /\ (m1 <> m2 -> (count_mask m1 < count_mask m2)%nat).
Proof.
  unfold count_mask.
  induction 1 as [|l1 l2 m1 m2 Hl Hm [IHle IHlt]]; [done|].
  csimpl. destruct (count_row_below l1 l2 Hl) as [Hle Hlt].
  split; [lia|]. intros Hne.
  destruct (decide (l1 = l2)) as [->|Hl12].
  - assert (m1 <> m2) as Hm12 by congruence. specialize (IHlt Hm12). lia.
  - specialize (Hlt Hl12). lia.
Qed.

Lemma count_row_length (l : list bool) : (count_row l <= length l)%nat.
Proof. apply length_filter. Qed.

Lemma count_mask_bound (h w : nat) (m : boolarray) :
  is_array h w m -> (count_mask m <= h * w)%nat.
Proof.
  intros [<- Hall]. unfold count_mask.
  induction Hall as [|row m Hrow Hall IH]; csimpl; [lia|].
  pose proof (count_row_length row). lia.
Qed.

Lemma grow_below (a : ndarray) (m : boolarray) :
  Forall2 (Forall2 below) m (grow a m).
Proof.
  unfold grow. apply Forall2_same_length_lookup.
  split; [by rewrite length_imap|]. intros r row row' Hrow Hrow'.
  rewrite list_lookup_imap, Hrow in Hrow'. simplify_eq/=.
  apply Forall2_same_length_lookup.
  split; [by rewrite length_imap|]. intros c b b' Hb Hb'.
  rewrite list_lookup_imap, Hb in Hb'. simplify_eq/=.
  intros ->. done.
Qed.

Lemma grow_fixed_or_counted (h w : nat) (a : ndarray) (m : boolarray) (k : nat) :
  is_array h w m ->
  grow a (Nat.iter k (grow a) m) = Nat.iter k (grow a) m
  \/ (k <= count_mask (Nat.iter k (grow a) m))%nat.
Proof.
  intros Hm. induction k as [|k IH]; [right; lia|].
  rewrite Nat.iter_succ. set (mk := Nat.iter k (grow a) m) in *.
  destruct (decide (grow a mk = mk)) as [Hfix|Hne].
  - left. by rewrite !Hfix.
  - right. destruct IH as [?|Hk]; [done|].
    destruct (count_mask_below mk (grow a mk) (grow_below a mk)) as [_ Hlt].
    specialize (Hlt (not_eq_sym Hne)). lia.
Qed.

Lemma iter_grow_fixed (h w : nat) (a : ndarray) (m : boolarray) :
  is_array h w m ->
  grow a (Nat.iter (h * w) (grow a) m) = Nat.iter (h * w) (grow a) m.
Proof.
  intros Hm.
  destruct (grow_fixed_or_counted h w a m (h * w) Hm) as [Hfix|Hk]; [done|].
  set (mk := Nat.iter (h * w) (grow a) m) in *.
  destruct (decide (grow a mk = mk)) as [Hfix|Hne]; [done|].
  destruct (count_mask_below mk (grow a mk) (grow_below a mk)) as [_ Hlt].
  specialize (Hlt (not_eq_sym Hne)).
  assert (is_array h w (grow a mk)) as Hg
    by (apply is_array_grow; by apply is_array_iter_grow).
  apply count_mask_bound in Hg. lia.
Qed.

Lemma iter_grow_mono (a : ndarray) (m : boolarray) (k : nat) (q : nat * nat) :
  bcell m q = true -> bcell (Nat.iter k (grow a) m) q = true.
Proof.
  intros Hq. induction k as [|k IH]; simpl; [done|].
  apply bcell_grow. by left.
Qed.

(** A fixed point of [grow] is closed under links. *)
Lemma grow_fixed_closed (h w : nat) (a : ndarray) (m : boolarray)
    (q q' : nat * nat) :
  is_array h w a -> is_array h w m -> grow a m = m ->
  bcell m q = true -> linked a q q' -> bcell m q' = true.
Proof.
  intros Ha Hm Hfix Hq (Hadj & _ & Hfg).
  rewrite <- Hfix. apply bcell_grow. right.
  destruct (fg_in_bounds h w a q' Ha Hfg) as [Hr Hc].
  split; [by eapply cell_is_Some|]. split; [done|].
  exists q. split; [by symmetry | done].
Qed.

(** [flood a p] is the connected component of the foreground cell [p]. *)
Lemma bcell_flood (h w : nat) (a : ndarray) (p q : nat * nat) :
  is_array h w a -> fg a p = true ->
  bcell (flood a p) q = true <-> connected a p q.
Proof.
  intros Ha Hp. unfold flood.
  destruct (fg_in_bounds h w a p Ha Hp) as [Hr Hc].
  rewrite (rows_array h w a), (cols_array h w a) by (done || lia).
  split; [by apply iter_grow_sound|].
  pose proof (is_array_seed_mask h w a p Ha) as Hseed.
  revert q. apply rtc_ind_r; [|intros q q' Hpq Hlink IH].
  - apply iter_grow_mono. apply bcell_seed_mask. split; [done|].
    by eapply cell_is_Some.
  - eapply (grow_fixed_closed h w); [done| |by apply iter_grow_fixed|done..].
    by apply is_array_iter_grow.
Qed.

Lemma dims_grow (a : ndarray) (m : boolarray) : dims (grow a m) = dims m.
Proof.
  unfold grow.
  apply (dims_imap
    (fun r c (b : bool) => b || (fg a (r, c) && existsb (bcell m) (window (r, c))))).
Qed.

Lemma dims_flood (a : ndarray) (p : nat * nat) : dims (flood a p) = dims a.
Proof.
  unfold flood. induction (rows a * cols a)%nat as [|k IH]; simpl.
  - unfold seed_mask.
    apply (dims_imap (fun r c (_ : Z) => bool_decide ((r, c) = p))).
  - by rewrite dims_grow.
Qed.

Lemma is_array_flood (h w : nat) (a : ndarray) (p : nat * nat) :
  is_array h w a -> is_array h w (flood a p).
Proof.
  intros Ha. unfold flood.
  apply is_array_iter_grow. by apply is_array_seed_mask.
Qed.

(** *** Labelling *)

Lemma cell_paint_flood (h w : nat) (a lab : ndarray) (p q : nat * nat) (v : Z) :
  is_array h w a -> is_array h w lab ->
  cell (paint lab (flood a p) v) q.1 q.2 =
    (fun x => if bcell (flood a p) q then v else x) <$> cell lab q.1 q.2.
Proof.
  intros Ha Hlab. rewrite cell_paint. unfold bcell.
  destruct (cell lab q.1 q.2) as [x|] eqn:Hx; [|done].
  destruct (cell_lt h w _ _ _ _ Hlab Hx) as [Hr Hc].
  destruct (cell_is_Some h w (flood a p) q.1 q.2) as [b Hb];
    [by apply is_array_flood | done..|].
  by rewrite Hb.
Qed.

Lemma labelling_init (h w : nat) (a : ndarray) :
  is_array h w a -> labelling h w a [] (zeros_like a, 0).
Proof.
  intros Ha. split; simpl.
  - by apply is_array_fmap.
  - intros q x. unfold zeros_like. rewrite cell_fmap.
    destruct (cell a q.1 q.2); intros; simplify_eq/=; lia.
  - intros q x. unfold zeros_like. rewrite cell_fmap.
    destruct (cell a q.1 q.2); intros; simplify_eq/=.
  - intros q Hq. by apply elem_of_nil in Hq.
Qed.

Lemma labelling_step (h w : nat) (a : ndarray) (seen : list (nat * nat))
    (st : ndarray * Z) (p : nat * nat) :
  is_array h w a -> labelling h w a seen st ->
  labelling h w a (p :: seen) (label_step a st p).
Proof.
  intros Ha [Harr Hrange Hcomp Hseen]. unfold label_step.
  destruct st as [lab n]. simpl in *.
  destruct (fg a p) eqn:Hp; simpl.
  2: { split; simpl; try done.
       intros q [->|Hq]%elem_of_cons Hfg; [congruence | by apply Hseen]. }
  destruct (fg_in_bounds h w a p Ha Hp) as [Hr Hc].
  destruct (cell_is_Some h w lab p.1 p.2 Harr Hr Hc) as [x0 Hx0].
  rewrite Hx0. simpl.
  destruct (Z.eqb_spec x0 0) as [->|Hx0ne].
  2: { split; simpl; try done.
       intros q [->|Hq]%elem_of_cons Hfg; [eauto | by apply Hseen]. }
  (* a new component: the cells of [flood a p] get the label [n + 1] *)
  assert (forall q, connected a p q -> cell lab q.1 q.2 = Some 0) as Hfresh.
  { intros q Hpq.
    pose proof (connected_fg a p q Hpq Hp) as Hq.
    destruct (fg_in_bounds h w a q Ha Hq) as [Hqr Hqc].
    destruct (cell_is_Some h w lab q.1 q.2 Harr Hqr Hqc) as [x Hx].
    destruct (decide (x = 0)) as [->|Hne]; [done|].
    destruct (Hcomp q x Hx Hne) as [_ Hclass].
    apply connected_sym, Hclass in Hpq. congruence. }
  split; simpl.
  - unfold paint. apply is_array_zip_with; [done | by apply is_array_flood].
  - intros q y. rewrite (cell_paint_flood h w) by done.
    destruct (cell lab q.1 q.2) as [x|] eqn:Hx; [|done]. simpl.
    intros [= <-]. pose proof (Hrange q x Hx). case_match; lia.
  - intros q y. rewrite (cell_paint_flood h w) by done.
    destruct (cell lab q.1 q.2) as [x|] eqn:Hx; [|done]. simpl.
    intros [= <-] Hy. pose proof (Hrange q x Hx).
    destruct (bcell (flood a p) q) eqn:Hq.
    + apply (bcell_flood h w) in Hq; [|done..].
      split; [by eapply connected_fg|]. intros q'.
      rewrite (cell_paint_flood h w) by done. split.
      * destruct (cell lab q'.1 q'.2) as [x'|] eqn:Hx'; [|done]. simpl.
        intros [= Hx'']. pose proof (Hrange q' x' Hx').
        destruct (bcell (flood a p) q') eqn:Hq'; [|lia].
        apply (bcell_flood h w) in Hq'; [|done..].
        eapply connected_trans; [by apply connected_sym | done].
      * intros Hqq'.
        assert (connected a p q') as Hpq' by (by eapply connected_trans).
        rewrite (Hfresh q' Hpq'). simpl.
        by rewrite (proj2 (bcell_flood h w a p q' Ha Hp) Hpq').
    + destruct (Hcomp q x Hx Hy) as [Hfg Hclass].
      split; [done|]. intros q'.
      rewrite (cell_paint_flood h w) by done. split.
      * destruct (cell lab q'.1 q'.2) as [x'|] eqn:Hx'; [|done]. simpl.
        intros [= Hx'']. pose proof (Hrange q' x' Hx').
        destruct (bcell (flood a p) q') eqn:Hq'; [lia|].
        apply Hclass. congruence.
      * intros Hqq'. pose proof (proj2 (Hclass q') Hqq') as Hx'.
        rewrite Hx'. simpl.
        destruct (bcell (flood a p) q') eqn:Hq'; [|done].
        apply (bcell_flood h w) in Hq'; [|done..].
        rewrite (Hfresh q' Hq') in Hx'. congruence.
  - intros q Hq Hfg. rewrite (cell_paint_flood h w) by done.
    apply elem_of_cons in Hq as [->|Hq].
    + rewrite Hx0. simpl.
      rewrite (proj2 (bcell_flood h w a p p Ha Hp)) by apply rtc_refl.
      eexists. split; [done|]. pose proof (Hrange p 0 Hx0). lia.
    + destruct (Hseen q Hq Hfg) as (x & Hx & Hne). rewrite Hx. simpl.
      eexists. split; [done|]. pose proof (Hrange q x Hx).
      case_match; [lia | done].
Qed.

Lemma labelling_foldl (h w : nat) (a : ndarray) (l seen : list (nat * nat))
    (st : ndarray * Z) :
  is_array h w a -> labelling h w a seen st ->
  labelling h w a (reverse l ++ seen) (foldl (label_step a) st l).
Proof.
  intros Ha. revert seen st.
  induction l as [|p l IH]; intros seen st Hst; simpl; [done|].
  rewrite reverse_cons, <- app_assoc. simpl.
  apply IH. by apply labelling_step.
Qed.

Lemma elem_of_raster {A} (a : list (list A)) (p : nat * nat) :
  p ∈ raster a <-> (p.1 < rows a)%nat /\ (p.2 < cols a)%nat.
Proof.
  unfold raster. destruct p as [r c]. simpl.
  rewrite list_elem_of_bind. split.
  - intros (r0 & Hc & Hr). apply list_elem_of_bind in Hc as (c0 & Hq & Hc).
    apply list_elem_of_singleton in Hq. simplify_eq.
    apply elem_of_seq in Hr, Hc. lia.
  - intros [Hr Hc]. exists r. split; [|apply elem_of_seq; lia].
    apply list_elem_of_bind. exists c.
    split; [by apply list_elem_of_singleton | apply elem_of_seq; lia].
Qed.

Lemma labelling_label (h w : nat) (a : ndarray) :
  is_array h w a -> labelling h w a (reverse (raster a) ++ []) (label a).
Proof.
  intros Ha. unfold label. apply labelling_foldl; [done|].
  by apply labelling_init.
Qed.

(** The cells that carry the label of the foreground cell [p] are the
    connected component of [p]. *)
Lemma label_component (h w : nat) (a : ndarray) (p : nat * nat) :
  is_array h w a -> fg a p = true ->
  exists x,
    cell (label a).1 p.1 p.2 = Some x /\ x <> 0
    /\ forall q, cell (label a).1 q.1 q.2 = Some x <-> connected a p q.
Proof.
  intros Ha Hp. destruct (labelling_label h w a Ha) as [_ _ Hcomp Hseen].
  destruct (fg_in_bounds h w a p Ha Hp) as [Hr Hc].
  destruct (Hseen p) as (x & Hx & Hne); [|done|].
  { rewrite app_nil_r, elem_of_reverse. apply elem_of_raster.
    rewrite (rows_array h w a), (cols_array h w a) by (done || lia). done. }
  exists x. split; [done|]. split; [done|].
  by apply (Hcomp p x Hx Hne).
Qed.

Lemma is_array_label (h w : nat) (a : ndarray) :
  is_array h w a -> is_array h w (label a).1.
Proof. intros Ha. by destruct (labelling_label h w a Ha). Qed.

End Components.

(** ** Revealing *)

Section Reveal.

Lemma setmask_array (h w : nat) (a : ndarray) (mask : boolarray) (v : Z) :
  is_array h w a -> is_array h w mask -> setmask a mask v = Ok (paint a mask v).
Proof.
  intros Ha Hm. apply setmask_Ok.
  by rewrite (dims_array h w a), (dims_array h w mask).
Qed.

Lemma is_array_paint (h w : nat) (a : ndarray) (mask : boolarray) (v : Z) :
  is_array h w a -> is_array h w mask -> is_array h w (paint a mask v).
Proof. intros Ha Hm. unfold paint. by apply is_array_zip_with. Qed.

Lemma is_array_where (h w : nat) (p : Z -> bool) (a : ndarray) :
  is_array h w a -> is_array h w (where_ p a).
Proof. apply is_array_fmap. Qed.

Lemma cell_where (p : Z -> bool) (a : ndarray) (r c : nat) :
  cell (where_ p a) r c = p <$> cell a r c.
Proof. apply cell_fmap. Qed.

Lemma is_array_logical_and (h w : nat) (a b : boolarray) :
  is_array h w a -> is_array h w b -> is_array h w (logical_and a b).
Proof. apply is_array_zip_with. Qed.

Lemma is_array_convolve (h w : nat) (a : ndarray) :
  is_array h w a -> is_array h w (convolve a).
Proof.
  intros Ha. unfold convolve.
  by apply (is_array_imap (fun r c (_ : Z) => int8 (window_sum a r c))).
Qed.

Lemma cell_convolve (a : ndarray) (r c : nat) :
  cell (convolve a) r c = (fun _ => int8 (window_sum a r c)) <$> cell a r c.
Proof.
  unfold convolve.
  by rewrite (cell_imap (fun r c (_ : Z) => int8 (window_sum a r c))).
Qed.

Lemma is_array_interchange (h w : nat) (value : ndarray) :
  is_array h w value -> is_array h w (interchange value).
Proof.
  intros Hv. unfold interchange.
  assert (is_array h w (paint value (where_ (Z.eqb 0) value) 9)) as Hp
    by (apply is_array_paint; [done | by apply is_array_where]).
  apply is_array_paint; [done|].
  apply is_array_logical_and; by apply is_array_where.
Qed.

Lemma cell_interchange (value : ndarray) (r c : nat) :
  cell (interchange value) r c =
    (fun x => if x =? 0 then 9 else if x <? 9 then 0 else x)
      <$> cell value r c.
Proof.
  unfold interchange, logical_and.
  rewrite cell_paint, cell_zip_with, !cell_where, cell_paint, cell_where.
  destruct (cell value r c) as [x|]; [|done]. cbn -[Z.eqb Z.ltb].
  f_equal. rewrite (Z.eqb_sym 0 x).
  destruct (Z.eqb_spec x 0) as [->|Hx]; [done|].
  rewrite (proj2 (Z.eqb_neq x 0) Hx). cbn -[Z.ltb].
  by destruct (x <? 9).
Qed.

Lemma fg_interchange (value : ndarray) (q : nat * nat) :
  fg (interchange value) q = true <->
  exists x, cell value q.1 q.2 = Some x /\ (x = 0 \/ 9 <= x).
Proof.
  unfold fg. rewrite cell_interchange.
  destruct (cell value q.1 q.2) as [x|]; cbn -[Z.eqb Z.ltb].
  - destruct (Z.eqb_spec x 0) as [->|Hx]; [split; eauto|].
    destruct (Z.ltb_spec x 9); cbn -[Z.eqb].
    + split; [done|]. intros (x' & [= <-] & [?|?]); lia.
    + rewrite (proj2 (Z.eqb_neq x 0) Hx). split; [eauto|done].
  - split; [done|]. by intros (x & ? & _).
Qed.

Lemma offset_adjacent (m : ndarray) (r c : nat) :
  (exists d, d ∈ offsets
     /\ on_board m (Z.of_nat r + d.1) (Z.of_nat c + d.2) = Some 1) <->
  (exists q, adjacent (r, c) q /\ cell m q.1 q.2 = Some 1).
Proof.
  split.
  - intros ([dr dc] & Hd & Hon). simpl in Hon.
    unfold on_board in Hon.
    destruct ((Z.of_nat r + dr <? 0) || (Z.of_nat c + dc <? 0)) eqn:Hneg;
      [done|].
    apply orb_false_iff in Hneg as [Hr%Z.ltb_ge Hc%Z.ltb_ge].
    exists (Z.to_nat (Z.of_nat r + dr), Z.to_nat (Z.of_nat c + dc)).
    split; [|done]. unfold adjacent, offsets in *. simpl.
    rewrite !elem_of_cons, elem_of_nil in Hd.
    destruct Hd as [Hd|[Hd|[Hd|[Hd|[Hd|[Hd|[Hd|[Hd|[Hd|[]]]]]]]]]];
      simplify_eq; lia.
  - intros ([r' c'] & Hadj & Hq). unfold adjacent in Hadj. simpl in *.
    exists (Z.of_nat r' - Z.of_nat r, Z.of_nat c' - Z.of_nat c). simpl.
    replace (Z.of_nat r + (Z.of_nat r' - Z.of_nat r)) with (Z.of_nat r') by lia.
    replace (Z.of_nat c + (Z.of_nat c' - Z.of_nat c)) with (Z.of_nat c') by lia.
    rewrite on_board_of_nat. split; [|done].
    assert (Z.of_nat r' - Z.of_nat r = -1 \/ Z.of_nat r' - Z.of_nat r = 0
            \/ Z.of_nat r' - Z.of_nat r = 1) as Hdr by lia.
    assert (Z.of_nat c' - Z.of_nat c = -1 \/ Z.of_nat c' - Z.of_nat c = 0
            \/ Z.of_nat c' - Z.of_nat c = 1) as Hdc by lia.
    unfold offsets. rewrite !elem_of_cons.
    destruct Hdr as [->|[->| ->]], Hdc as [->|[->| ->]]; tauto.
Qed.

(** On an array of zeros and ones, the 3x3 window sum counts the ones of
    the window. *)
Lemma window_sum_ones (m : ndarray) (r c : nat) :
  mine_map m ->
  0 <= window_sum m r c <= 9
  /\ (1 <= window_sum m r c <->
       exists q, adjacent (r, c) q /\ cell m q.1 q.2 = Some 1).
Proof.
  intros Hm. rewrite <- offset_adjacent. unfold window_sum.
  rewrite (list_fmap_ext _
    (fun d => if decide (on_board m (Z.of_nat r + d.1) (Z.of_nat c + d.2)
                         = Some 1) then 1 else 0) offsets);
    [|intros; by apply padded_mine_map].
  rewrite sumZ_indicator.
  set (P := fun d : Z * Z =>
    on_board m (Z.of_nat r + d.1) (Z.of_nat c + d.2) = Some 1).
  pose proof (length_filter P offsets) as Hle.
  change (length offsets) with 9%nat in Hle.
  split; [lia|]. split.
  - intros Hpos. destruct (filter P offsets) as [|d l] eqn:Hf; [simpl in *; lia|].
    assert (d ∈ filter P offsets) as Hd by (rewrite Hf; left).
    apply list_elem_of_filter in Hd as [HP Hd]. by exists d.
  - intros (d & Hd & HP).
    assert (d ∈ filter P offsets) as Hin by (by apply list_elem_of_filter).
    destruct (filter P offsets); [by apply elem_of_nil in Hin | simpl; lia].
Qed.

Lemma locate_same_shape {A B} (h w : nat) (a : list (list A))
    (b : list (list B)) (pos : Z * Z) :
  is_array h w a -> is_array h w b -> locate a pos = locate b pos.
Proof.
  intros Ha Hb. apply locate_shape.
  - by rewrite (rows_array h w a), (rows_array h w b).
  - by eapply cols_same_shape.
Qed.

(** The flood branch of [update_visible], step by step. *)
Lemma update_visible_flood_eq (h w : nat) (value visible : ndarray)
    (pos : Z * Z) (p : nat * nat) (v here : Z) :
  is_array h w value -> is_array h w visible ->
  locate visible pos = Ok p ->
  cell visible p.1 p.2 = Some v -> v <> -1 ->
  cell value p.1 p.2 = Some 0 ->
  cell (label (interchange value)).1 p.1 p.2 = Some here ->
  update_visible value visible pos false =
    Ok (paint visible
          (where_ (fun x => x >=? 1)
             (convolve (paint (zeros_like visible)
                          (where_ (Z.eqb here) (label (interchange value)).1) 1)))
          1).
Proof.
  intros Hval Hvis Hloc Hv Hne Hzero Hhere. destruct p as [r c].
  assert (is_array h w (interchange value)) as Hint
    by (by apply is_array_interchange).
  assert (is_array h w (label (interchange value)).1) as Hlab
    by (by apply is_array_label).
  unfold update_visible.
  rewrite (getitem_located visible pos r c v) by done. cbn [rbind].
  rewrite (proj2 (Z.eqb_neq v (-1)) Hne).
  rewrite (getitem_located value pos r c 0);
    [|by rewrite (locate_same_shape h w value visible) | done].
  cbn [rbind]. rewrite Z.eqb_refl.
  rewrite (setmask_array h w) by (done || by apply is_array_where).
  cbn [rbind].
  rewrite (setmask_array h w).
  2: { apply is_array_paint; [done | by apply is_array_where]. }
  2: { apply is_array_logical_and; apply is_array_where;
       (apply is_array_paint; [done | by apply is_array_where]). }
  cbn [rbind]. fold (interchange value).
  rewrite (getitem_located _ pos r c here);
    [|by rewrite (locate_same_shape h w _ visible) | done].
  cbn [rbind].
  rewrite (setmask_array h w);
    [|by apply is_array_fmap | by apply is_array_where].
  cbn [rbind].
  apply (setmask_array h w); [done|].
  apply is_array_where, is_array_convolve, is_array_paint;
    [by apply is_array_fmap | by apply is_array_where].
Qed.

(** The array [vis_temp] before the convolution marks the component. *)
Lemma cell_component_mask (h w : nat) (visible lab : ndarray) (here : Z)
    (q : nat * nat) :
  is_array h w visible -> is_array h w lab ->
  cell (paint (zeros_like visible) (where_ (Z.eqb here) lab) 1) q.1 q.2 =
    (fun x => if here =? x then 1 else 0) <$> cell lab q.1 q.2.
Proof.
  intros Hvis Hlab. rewrite cell_paint, cell_where. unfold zeros_like.
  rewrite cell_fmap.
  destruct (cell lab q.1 q.2) as [x|] eqn:Hx; cbn -[Z.eqb].
  - destruct (cell_lt h w _ _ _ _ Hlab Hx) as [Hr Hc].
    destruct (cell_is_Some h w visible q.1 q.2 Hvis Hr Hc) as [u ->].
    cbn -[Z.eqb]. by destruct (here =? x).
  - by destruct (cell visible q.1 q.2).
Qed.

(** What a flood reveal does to the visibility map: the cells of
    [touched] become Revealed, the others keep their state. *)
Lemma update_visible_flood (h w : nat) (value visible : ndarray)
    (pos : Z * Z) (p : nat * nat) (v : Z) :
  is_array h w value -> is_array h w visible ->
  locate visible pos = Ok p ->
  cell visible p.1 p.2 = Some v -> v <> -1 ->
  cell value p.1 p.2 = Some 0 ->
  exists res,
    update_visible value visible pos false = Ok res
    /\ is_array h w res
    /\ forall q u, cell visible q.1 q.2 = Some u ->
         (touched value p q -> cell res q.1 q.2 = Some 1)
         /\ (~ touched value p q -> cell res q.1 q.2 = Some u).
Proof.
  intros Hval Hvis Hloc Hv Hne Hzero.
  assert (is_array h w (interchange value)) as Hint
    by (by apply is_array_interchange).
  assert (fg (interchange value) p = true) as Hfg
    by (apply fg_interchange; eauto).
  destruct (label_component h w _ p Hint Hfg) as (here & Hhere & Hhne & Hclass).
  pose proof (is_array_label h w _ Hint) as Hlab.
  rewrite (update_visible_flood_eq h w value visible pos p v here) by done.
  set (lab := (label (interchange value)).1) in *.
  set (vis_temp := paint (zeros_like visible) (where_ (Z.eqb here) lab) 1).
  assert (is_array h w vis_temp) as Htemp.
  { apply is_array_paint; [by apply is_array_fmap | by apply is_array_where]. }
  assert (forall q, cell vis_temp q.1 q.2 = Some 1 <->
                    connected (interchange value) p q) as Hmask.
  { intros q. unfold vis_temp. rewrite (cell_component_mask h w) by done.
    rewrite <- Hclass.
    destruct (cell lab q.1 q.2) as [x|]; cbn -[Z.eqb]; [|done].
    destruct (Z.eqb_spec here x) as [->|Hx]; [done|].
    split; intros [= ?]; congruence. }
  assert (mine_map vis_temp) as Hones.
  { intros r c x. unfold vis_temp.
    rewrite (cell_component_mask h w _ _ _ (r, c)) by done. simpl.
    destruct (cell lab r c) as [y|]; cbn -[Z.eqb]; [|done].
    destruct (here =? y); intros [= <-]; auto. }
  eexists. split; [done|]. split.
  { apply is_array_paint; [done|].
    by apply is_array_where, is_array_convolve. }
  intros [r c] u Hu. simpl in Hu. simpl.
  destruct (cell_lt h w _ _ _ _ Hvis Hu) as [Hr Hc].
  destruct (cell_is_Some h w vis_temp r c Htemp Hr Hc) as [t Ht].
  rewrite cell_paint, cell_where, cell_convolve, Hu, Ht.
  cbn -[Z.geb window_sum int8].
  destruct (window_sum_ones vis_temp r c Hones) as [Hrange Hpos].
  rewrite int8_small by lia.
  assert (touched value p (r, c) <-> 1 <= window_sum vis_temp r c) as Htouch.
  { rewrite Hpos. unfold touched. split.
    - intros (q' & Hq' & Hadj). exists q'.
      split; [by symmetry | by apply Hmask].
    - intros (q' & Hadj & Hq'). exists q'.
      split; [by apply Hmask | by symmetry]. }
  destruct (Z.geb_spec (window_sum vis_temp r c) 1) as [Hge|Hlt].
  - split; [done|]. intros Hnot. destruct Hnot. apply Htouch. lia.
  - split; [|done]. intros Hyes. apply Htouch in Hyes. lia.
Qed.

(** On a value map the labelled components are the zero regions. *)
Lemma linked_interchange (value : ndarray) (p q : nat * nat) :
  value_grid value ->
  linked (interchange value) p q <-> zero_linked value p q.
Proof.
  intros Hgrid. unfold linked, zero_linked, zero_cell.
  rewrite !fg_interchange. split.
  - intros (Hadj & (x & Hx & Hx0) & (y & Hy & Hy0)).
    pose proof (Hgrid _ _ _ Hx). pose proof (Hgrid _ _ _ Hy).
    split; [done|]. split; [rewrite Hx | rewrite Hy]; f_equal; lia.
  - intros (Hadj & Hp & Hq). eauto 10.
Qed.

Lemma connected_interchange (value : ndarray) (p q : nat * nat) :
  value_grid value ->
  connected (interchange value) p q <-> zero_region value p q.
Proof.
  intros Hgrid. unfold connected, zero_region. split.
  - apply rtc_subrel. intros x y. by apply linked_interchange.
  - apply rtc_subrel. intros x y. by apply linked_interchange.
Qed.

Lemma touched_closure (value : ndarray) (p q : nat * nat) :
  value_grid value -> touched value p q <-> closure value p q.
Proof.
  intros Hgrid. unfold touched, closure. split.
  - intros (q' & Hq' & Hadj). exists q'.
    split; [by apply connected_interchange | done].
  - intros (q' & Hq' & Hadj). exists q'.
    split; [by apply connected_interchange | done].
Qed.

(** The maps that [get_value] builds are value maps. *)
Lemma get_value_value_grid (map value : ndarray) :
  mine_map map -> get_value map = Ok value -> value_grid value.
Proof.
  intros Hmap Hval r c x Hx.
  rewrite (cell_get_value map value r c Hval) in Hx.
  destruct (cell map r c) as [m|] eqn:Hm; [|done].
  cbn -[Z.eqb int8 window_sum] in Hx.
  assert (x = if 1 =? m then -1 else int8 (window_sum map r c)) as ->
    by congruence.
  destruct (Z.eqb_spec 1 m) as [<-|Hne]; [lia|].
  rewrite window_sum_adjacent by (done || congruence).
  pose proof (adjacent_mines_bound map r c).
  rewrite int8_small; lia.
Qed.

(** C6: on a value map, a reveal of an unflagged cell of value 0 sets to
    Revealed the zero region of that cell and every cell adjacent to the
    region, and leaves every other cell as it was. *)
Theorem flood_reveal_closure (h w : nat) (value visible : ndarray)
    (pos : Z * Z) (target : nat * nat) (v : Z) :
  is_array h w value -> is_array h w visible -> value_grid value ->
  locate visible pos = Ok target ->
  cell visible target.1 target.2 = Some v -> v <> -1 ->
  cell value target.1 target.2 = Some 0 ->
  exists res,
    update_visible value visible pos false = Ok res
    /\ forall q u, cell visible q.1 q.2 = Some u ->
         (closure value target q -> cell res q.1 q.2 = Some 1)
         /\ (~ closure value target q -> cell res q.1 q.2 = Some u).
Proof.
  intros Hval Hvis Hgrid Hloc Hv Hne Hzero.
  destruct (update_visible_flood h w value visible pos target v)
    as (res & Hres & _ & Hcells); [done..|].
  exists res. split; [done|]. intros q u Hu.
  destruct (Hcells q u Hu) as [Hin Hout]. split.
  - intros Hq. by apply Hin, touched_closure.
  - intros Hq. apply Hout. by rewrite touched_closure.
Qed.

(** C2 as stated fails: the reveal of the Hidden cell (0, 0), of value
    0, turns the Flagged cell (0, 1) into a Revealed one. *)
Lemma flood_reveal_overwrites_flag :
  let value := [[0; 0]] in
  let visible := [[0; -1]] in
  getitem value (0, 0) = Ok 0
  /\ getitem visible (0, 0) = Ok 0
  /\ cell visible 0 1 = Some (-1)
  /\ exists res,
       update_visible value visible (0, 0) false = Ok res
       /\ cell res 0 1 = Some 1.
Proof. repeat split. by exists [[1; 1]]. Qed.

(** C2, as the code has it: a reveal of a Hidden cell of value 0 leaves
    Flagged the flagged cells outside the closure of the zero region;
    the flagged cells of the region and of its border become Revealed. *)
Theorem flood_reveal_flagged (h w : nat) (value visible : ndarray)
    (pos : Z * Z) (target : nat * nat) :
  is_array h w value -> is_array h w visible -> value_grid value ->
  locate visible pos = Ok target ->
  cell visible target.1 target.2 = Some 0 ->
  cell value target.1 target.2 = Some 0 ->
  exists res,
    update_visible value visible pos false = Ok res
    /\ forall q, cell visible q.1 q.2 = Some (-1) ->
         (~ closure value target q -> cell res q.1 q.2 = Some (-1))
         /\ (closure value target q -> cell res q.1 q.2 = Some 1).
Proof.
  intros Hval Hvis Hgrid Hloc Hv Hzero.
  destruct (update_visible_flood h w value visible pos target 0)
    as (res & Hres & _ & Hcells); [done..|].
  exists res. split; [done|]. intros q Hq.
  destruct (Hcells q (-1) Hq) as [Hin Hout]. split.
  - intros Hnot. apply Hout. by rewrite touched_closure.
  - intros Hyes. by apply Hin, touched_closure.
Qed.

Lemma flood_reveal_closure_witness :
  let value := [[0; 0; 0]; [0; 1; 1]; [0; 1; -1]] in
  let visible := [[0; -1; 0]; [0; 0; 0]; [0; 0; 0]] in
  is_array 3 3 value /\ is_array 3 3 visible /\ value_grid value
  /\ locate visible (0, 0) = Ok (0%nat, 0%nat)
  /\ cell visible 0 0 = Some 0 /\ 0 <> -1
  /\ cell value 0 0 = Some 0
  /\ exists res,
       update_visible value visible (0, 0) false = Ok res
       /\ forall q u, cell visible q.1 q.2 = Some u ->
            (closure value (0%nat, 0%nat) q -> cell res q.1 q.2 = Some 1)
            /\ (~ closure value (0%nat, 0%nat) q -> cell res q.1 q.2 = Some u).
Proof.
  intros value visible.
  assert (is_array 3 3 value) as Hval by (split; [done | by repeat constructor]).
  assert (is_array 3 3 visible) as Hvis by (split; [done | by repeat constructor]).
  assert (value_grid value) as Hgrid.
  { intros [|[|[|r]]] [|[|[|c]]] x Hx; cbv in Hx; simplify_eq; lia. }
  do 3 (split; [done|]). split; [reflexivity|]. split; [reflexivity|].
  split; [lia|]. split; [reflexivity|].
  apply (flood_reveal_closure 3 3 value visible (0, 0) (0%nat, 0%nat) 0);
    (done || reflexivity || lia).
Defined.

Lemma flood_reveal_flagged_witness :
  let value := [[0; 0; 0]; [0; 1; 1]; [0; 1; -1]] in
  let visible := [[0; -1; 0]; [0; 0; 0]; [0; 0; -1]] in
  is_array 3 3 value /\ is_array 3 3 visible /\ value_grid value
  /\ locate visible (0, 0) = Ok (0%nat, 0%nat)
  /\ cell visible 0 0 = Some 0
  /\ cell value 0 0 = Some 0
  /\ exists res,
       update_visible value visible (0, 0) false = Ok res
       /\ forall q, cell visible q.1 q.2 = Some (-1) ->
            (~ closure value (0%nat, 0%nat) q -> cell res q.1 q.2 = Some (-1))
            /\ (closure value (0%nat, 0%nat) q -> cell res q.1 q.2 = Some 1).
Proof.
  intros value visible.
  assert (is_array 3 3 value) as Hval by (split; [done | by repeat constructor]).
  assert (is_array 3 3 visible) as Hvis by (split; [done | by repeat constructor]).
  assert (value_grid value) as Hgrid.
  { intros [|[|[|r]]] [|[|[|c]]] x Hx; cbv in Hx; simplify_eq; lia. }
  do 3 (split; [done|]). split; [reflexivity|]. split; [reflexivity|].
  split; [reflexivity|].
  apply (flood_reveal_flagged 3 3 value visible (0, 0) (0%nat, 0%nat));
    (done || reflexivity).
Defined.

(** *** Revealing twice *)

Lemma zeros_like_same_shape (h w : nat) (a b : ndarray) :
  is_array h w a -> is_array h w b -> zeros_like a = zeros_like b.
Proof.
  intros Ha Hb. apply (array_eq h w); [by apply is_array_fmap..|].
  intros r c. unfold zeros_like. rewrite !cell_fmap.
  destruct (cell a r c) as [x|] eqn:Hx.
  - destruct (cell_lt h w _ _ _ _ Ha Hx) as [Hr Hc].
    by destruct (cell_is_Some h w b r c Hb Hr Hc) as [y ->].
  - apply (cell_None h w) in Hx; [|done].
    by rewrite (proj2 (cell_None h w b r c Hb) Hx).
Qed.

Lemma paint_paint (h w : nat) (a : ndarray) (mask : boolarray) (v : Z) :
  is_array h w a -> is_array h w mask ->
  paint (paint a mask v) mask v = paint a mask v.
Proof.
  intros Ha Hm. apply (array_eq h w); [by repeat apply is_array_paint..|].
  intros r c. rewrite !cell_paint.
  destruct (cell a r c), (cell mask r c) as [[]|]; done.
Qed.

(** C7: a reveal at a cell of value 0 returns a visibility map on which
    the same reveal changes nothing. *)
Theorem flood_reveal_idempotent (h w : nat) (value visible : ndarray)
    (pos : Z * Z) :
  is_array h w value -> is_array h w visible ->
  getitem value pos = Ok 0 ->
  exists once,
    update_visible value visible pos false = Ok once
    /\ update_visible value once pos false = Ok once.
Proof.
  intros Hval Hvis Hzero.
  apply getitem_Ok in Hzero as (r & c & Hloc & Hzero).
  rewrite (locate_same_shape h w value visible) in Hloc by done.
  destruct (locate_lt _ _ _ _ Hloc) as [Hr Hc].
  rewrite (rows_array h w visible) in Hr by done.
  rewrite (cols_array h w visible) in Hc by (done || lia).
  destruct (cell_is_Some h w visible r c Hvis Hr Hc) as [v Hv].
  destruct (decide (v = -1)) as [->|Hne].
  { exists visible. unfold update_visible.
    rewrite (getitem_located visible pos r c (-1)) by done. done. }
  assert (is_array h w (interchange value)) as Hint
    by (by apply is_array_interchange).
  assert (fg (interchange value) (r, c) = true) as Hfg
    by (apply fg_interchange; eauto).
  destruct (label_component h w _ (r, c) Hint Hfg) as (here & Hhere & _ & _).
  destruct (update_visible_flood h w value visible pos (r, c) v)
    as (once & Honce & Harr & Hcells); [done..|].
  exists once. split; [done|].
  destruct (Hcells (r, c) v Hv) as [Hin _].
  assert (cell once r c = Some 1) as Hshown.
  { apply Hin. exists (r, c). split; [apply rtc_refl | done]. }
  rewrite (update_visible_flood_eq h w value visible pos (r, c) v here)
    in Honce by done.
  injection Honce as Honce.
  rewrite (update_visible_flood_eq h w value once pos (r, c) 1 here);
    [|done..| |done| |done|done].
  - f_equal. rewrite (zeros_like_same_shape h w once visible) by done.
    rewrite <- Honce. apply (paint_paint h w); [done|].
    apply is_array_where, is_array_convolve, is_array_paint;
      [by apply is_array_fmap | by apply is_array_where, is_array_label].
  - by rewrite (locate_same_shape h w once visible).
  - lia.
Qed.

Lemma flood_reveal_idempotent_witness :
  let value := [[0; 0; 0]; [0; 1; 1]; [0; 1; -1]] in
  let visible := [[0; -1; 0]; [0; 0; 0]; [0; 0; -1]] in
  is_array 3 3 value /\ is_array 3 3 visible
  /\ getitem value (0, 0) = Ok 0
  /\ exists once,
       update_visible value visible (0, 0) false = Ok once
       /\ update_visible value once (0, 0) false = Ok once.
Proof.
  intros value visible.
  assert (is_array 3 3 value) as Hval by (split; [done | by repeat constructor]).
  assert (is_array 3 3 visible) as Hvis by (split; [done | by repeat constructor]).
  do 2 (split; [done|]). split; [reflexivity|].
  apply (flood_reveal_idempotent 3 3 value visible (0, 0)); (done || reflexivity).
Defined.

End Reveal.

(** ** More on the coordinate codec *)

Section CodecMore.

Lemma all_chars_app (p : ascii -> bool) (s t : string) :
  all_chars p (s +:+ t) = all_chars p s && all_chars p t.
Proof.
  induction s as [|c s IH]; [done|].
  rewrite append_cons. simpl. by rewrite IH, andb_assoc.
Qed.

Lemma append_nil_r (s : string) : s +:+ "" = s.
Proof. induction s as [|c s IH]; [done|]. by rewrite append_cons, IH. Qed.

Lemma length_append (s t : string) :
  String.length (s +:+ t) = (String.length s + String.length t)%nat.
Proof.
  induction s as [|c s IH]; [done|]. rewrite append_cons. simpl. by rewrite IH.
Qed.

(** The labels are made of capital letters. *)
Lemma int_to_letters_upper (n : Z) : all_chars is_upper (int_to_letters n) = true.
Proof.
  destruct (Z_le_gt_dec n 0) as [Hle|Hgt].
  { by rewrite int_to_letters_nonpos. }
  assert (0 <= n) as Hn by lia. clear Hgt.
  pattern n. apply Z_lt_induction with (x := n); [|done].
  clear n Hn. intros n IH.
  destruct (Z_le_gt_dec n 0) as [Hle|Hgt].
  { by rewrite int_to_letters_nonpos. }
  rewrite int_to_letters_pos, all_chars_app by lia.
  assert (0 <= (n - 1) mod 26 < 26) as Hr by (apply Z.mod_pos_bound; lia).
  assert (0 <= (n - 1) / 26 < n) as Hq.
  { split; [apply Z.div_pos; lia | apply Z.div_lt_upper_bound; lia]. }
  rewrite IH by done. simpl. unfold is_upper. rewrite ord_chr by lia.
  rewrite andb_true_r. apply andb_true_iff. lia.
Qed.

Lemma int_to_letters_nonempty (n : Z) : 1 <= n -> int_to_letters n <> "".
Proof.
  intros Hn Hempty. apply (f_equal weight) in Hempty.
  rewrite weight_int_to_letters in Hempty by lia. cbn in Hempty. lia.
Qed.

(** X1: the labels of two different columns are different, they are not
    empty and they are made of the capital letters A to Z only. *)
Theorem int_to_letters_labels (n m : Z) :
  1 <= n -> 1 <= m ->
  (int_to_letters n = int_to_letters m -> n = m)
  /\ int_to_letters n <> ""
  /\ all_chars is_upper (int_to_letters n) = true.
Proof.
  intros Hn Hm. split; [|split].
  - intros Heq. apply (f_equal weight) in Heq.
    by rewrite !weight_int_to_letters in Heq by lia.
  - by apply int_to_letters_nonempty.
  - apply int_to_letters_upper.
Qed.

Lemma int_to_letters_labels_witness :
  1 <= 27 /\ 1 <= 53
  /\ (int_to_letters 27 = int_to_letters 53 -> 27 = 53)
  /\ int_to_letters 27 <> ""
  /\ all_chars is_upper (int_to_letters 27) = true.
Proof.
  split; [lia|]. split; [lia|]. apply (int_to_letters_labels 27 53); lia.
Defined.

Lemma digit_alpha (c : ascii) : is_alpha c = true -> 1 <= digit c <= 26.
Proof.
  unfold is_alpha, is_upper, is_lower, digit. intros Hc.
  destruct ((65 <=? ord c) && (ord c <? 91)) eqn:Hup.
  - apply andb_true_iff in Hup. lia.
  - simpl in Hc. rewrite Hc. apply andb_true_iff in Hc. lia.
Qed.

Lemma chr_ord (c : ascii) : chr (ord c) = c.
Proof. unfold chr, ord. by rewrite N2Z.id, ascii_N_embedding. Qed.

Lemma chr_digit_alpha (c : ascii) :
  is_alpha c = true -> chr (digit c - 1 + 65) = upper_char c.
Proof.
  unfold is_alpha, is_upper, is_lower, digit, upper_char. intros Hc.
  destruct ((65 <=? ord c) && (ord c <? 91)) eqn:Hup.
  - apply andb_true_iff in Hup.
    replace ((97 <=? ord c) && (ord c <? 123)) with false
      by (symmetry; apply andb_false_iff; lia).
    replace (ord c - 64 - 1 + 65) with (ord c) by lia. apply chr_ord.
  - simpl in Hc. rewrite Hc. f_equal. lia.
Qed.

Lemma int_to_letters_weight_app (s : string) (q : Z) :
  all_chars is_alpha s = true -> 0 <= q ->
  int_to_letters (q * 26 ^ Z.of_nat (String.length s) + weight s)
    = int_to_letters q +:+ upper s.
Proof.
  revert q. induction s as [|c s IH]; intros q Hs Hq.
  - cbn. rewrite append_nil_r. f_equal. lia.
  - simpl in Hs. apply andb_true_iff in Hs as [Hc Hs].
    pose proof (digit_alpha c Hc) as Hd.
    rewrite weight_cons. cbn [String.length].
    rewrite Nat2Z.inj_succ, Z.pow_succ_r by lia.
    replace (q * (26 * 26 ^ Z.of_nat (String.length s))
             + (weight s + digit c * 26 ^ Z.of_nat (String.length s)))
      with ((26 * q + digit c) * 26 ^ Z.of_nat (String.length s) + weight s)
      by lia.
    rewrite IH by (done || lia).
    rewrite (int_to_letters_pos (26 * q + digit c)) by lia.
    replace ((26 * q + digit c - 1) / 26) with q.
    2: { apply (Z.div_unique _ 26 q (digit c - 1)); lia. }
    replace ((26 * q + digit c - 1) mod 26) with (digit c - 1).
    2: { apply (Z.mod_unique _ 26 q (digit c - 1)); lia. }
    rewrite chr_digit_alpha by done.
    by rewrite append_assoc.
Qed.

(** X2: encoding what a label decodes to gives the label back in capital
    letters: [int_to_letters (letters_to_int s + 1)] is [s] in upper case,
    for every string [s] of letters. *)
Theorem int_to_letters_letters_to_int (s : string) :
  all_chars is_alpha s = true ->
  int_to_letters (letters_to_int s + 1) = upper s.
Proof.
  intros Hs. change (letters_to_int s) with (weight s - 1).
  replace (weight s - 1 + 1) with (0 * 26 ^ Z.of_nat (String.length s) + weight s)
    by lia.
  rewrite int_to_letters_weight_app by (done || lia).
  by rewrite int_to_letters_nonpos.
Qed.

Lemma int_to_letters_letters_to_int_witness :
  all_chars is_alpha "bZq" = true
  /\ int_to_letters (letters_to_int "bZq" + 1) = upper "bZq".
Proof.
  split; [reflexivity|]. by apply (int_to_letters_letters_to_int "bZq").
Defined.

End CodecMore.

(** ** Decimal numerals *)

Section Decimal.

Lemma decimal_loop_small (n : Z) (acc : string) :
  n < 10 -> decimal_loop n acc = String (chr (48 + n)) acc.
Proof.
  intros Hn. rewrite decimal_loop_equation_1.
  destruct (Z_lt_dec n 10); [reflexivity | lia].
Qed.

Lemma decimal_loop_large (n : Z) (acc : string) :
  10 <= n ->
  decimal_loop n acc = decimal_loop (n / 10) (String (chr (48 + n mod 10)) acc).
Proof.
  intros Hn. rewrite decimal_loop_equation_1.
  destruct (Z_lt_dec n 10); [lia | reflexivity].
Qed.

Lemma decimal_loop_app (n : Z) (acc : string) :
  decimal_loop n acc = decimal n +:+ acc.
Proof.
  unfold decimal.
  destruct (Z_lt_dec n 10) as [Hlt|Hge].
  { by rewrite !decimal_loop_small. }
  assert (0 <= n) as Hn by lia. clear Hge.
  revert acc. pattern n. apply Z_lt_induction with (x := n); [|done].
  clear n Hn. intros n IH acc.
  destruct (Z_lt_dec n 10) as [Hlt|Hge].
  { by rewrite !decimal_loop_small. }
  rewrite !(decimal_loop_large n) by lia.
  assert (0 <= n / 10 < n) as Hq.
  { split; [apply Z.div_pos; lia | apply Z.div_lt; lia]. }
  rewrite (IH _ Hq (String _ acc)), (IH _ Hq (String _ "")).
  by rewrite append_assoc.
Qed.

Lemma decimal_large (n : Z) :
  10 <= n -> decimal n = decimal (n / 10) +:+ String (chr (48 + n mod 10)) "".
Proof.
  intros Hn. unfold decimal at 1. rewrite decimal_loop_large by done.
  apply decimal_loop_app.
Qed.

Lemma decimal_small (n : Z) : n < 10 -> decimal n = String (chr (48 + n)) "".
Proof. apply decimal_loop_small. Qed.





Lemma digits_loop_digits (s : string) (acc : Z) (prev : bool) :
  all_chars is_digit s = true -> s <> "" \/ prev = true ->
  digits_loop s acc prev = Some (digits_value s acc).
Proof.
  revert acc prev. induction s as [|c s IH]; intros acc prev Hs Hne.
  - destruct Hne as [?| ->]; done.
  - simpl in *. apply andb_true_iff in Hs as [Hc Hs]. rewrite Hc.
    apply IH; auto.
Qed.

(** [int] reads a string of digits as the number it denotes. *)
Lemma py_int_digits (s : string) :
  all_chars is_digit s = true -> s <> "" -> py_int s = Ok (digits_value s 0).
Proof.
  intros Hs Hne. unfold py_int. destruct s as [|c s]; [done|].
  assert (is_digit c = true) as Hc by (simpl in Hs; by apply andb_true_iff in Hs as [? _]).
  unfold is_digit in Hc. apply andb_true_iff in Hc as [Hc1 Hc2].
  rewrite (proj2 (Z.eqb_neq (ord c) 45)) by lia.
  rewrite (proj2 (Z.eqb_neq (ord c) 43)) by lia.
  rewrite digits_loop_digits by auto. f_equal. lia.
Qed.


End Decimal.

(** ** The move prompt *)

Section Position.

Lemma span_append (p : ascii -> bool) (s : string) :
  (span p s).1 +:+ (span p s).2 = s.
Proof.
  induction s as [|c s IH]; [done|]. simpl.
  destruct (p c); simpl; [|done]. by rewrite append_cons, IH.
Qed.

Lemma all_chars_span (p : ascii -> bool) (s : string) :
  all_chars p (span p s).1 = true.
Proof.
  induction s as [|c s IH]; [done|]. simpl.
  destruct (p c) eqn:Hc; simpl; [|done]. by rewrite Hc, IH.
Qed.


(** What a match says about the groups. *)
Lemma fullmatch_Some (pos column_str row_str : string) (is_flag : option string) :
  fullmatch pos = Some (column_str, row_str, is_flag) ->
  all_chars is_alpha column_str = true /\ column_str <> ""
  /\ all_chars is_digit row_str = true /\ row_str <> ""
  /\ pos = column_str +:+ row_str +:+ default "" is_flag.
Proof.
  unfold fullmatch. intros H.
  pose proof (all_chars_span is_alpha pos) as Ha.
  pose proof (span_append is_alpha pos) as Hpos.
  pose proof (all_chars_span is_digit (span is_alpha pos).2) as Hd.
  pose proof (span_append is_digit (span is_alpha pos).2) as Hrest.
  destruct (span is_alpha pos).1 as [|c cs] eqn:Hcs; [done|].
  destruct (span is_digit (span is_alpha pos).2).1 as [|d ds] eqn:Hds; [done|].
  destruct (span is_digit (span is_alpha pos).2).2 as [|f [|f' fs]] eqn:Hfs.
  - simplify_eq. repeat split; try done.
    rewrite <- Hpos, <- Hrest. done.
  - destruct ((ord f =? 102) || (ord f =? 70)); simplify_eq.
    repeat split; try done. rewrite <- Hpos, <- Hrest. done.
  - done.
Qed.

Lemma get_position_cons (width height : Z) (pos : string) (rest : list string) :
  get_position width height (pos :: rest) =
    if bool_decide (pos ∈ ["Q"; "q"]) then (Signalled Quit, [])
    else if bool_decide (pos ∈ ["R"; "r"]) then (Signalled Restart, [])
    else if bool_decide (pos ∈ ["H"; "h"]) then
      (fun '(res, out) => (res, help_text :: out))
        (get_position width height rest)
    else
      match fullmatch pos with
      | None =>
          (fun '(res, out) => (res, ("Invalid position." +:+ newline) :: out))
            (get_position width height rest)
      | Some (column_str, row_str, is_flag) =>
          let column := letters_to_int column_str in
          match py_int row_str with
          | Raise e => (Failed e, [])
          | Ok n =>
              let row := n - 1 in
              let flag := match is_flag with Some _ => true | None => false end in
              if (0 <=? column) && (column <? width)
                 && (0 <=? row) && (row <? height)
              then (Returned (row, column, flag), [])
              else
                (fun '(res, out) =>
                   (res, ("Position out of range." +:+ newline) :: out))
                  (get_position width height rest)
          end
      end.
Proof. reflexivity. Qed.

(** One step of the proofs about [get_position]: what the call on
    [pos :: rest] gives is decided at once, or is what the call on [rest]
    gives, with one more message printed. *)
Lemma get_position_step (width height : Z) (pos : string) (rest : list string) :
  (exists s, get_position width height (pos :: rest) = (Signalled s, [])
             /\ (s = Quit \/ s = Restart))
  \/ (exists row column flag,
        get_position width height (pos :: rest)
          = (Returned (row, column, flag), [])
        /\ 0 <= row < height /\ 0 <= column < width)
  \/ (exists message,
        get_position width height (pos :: rest)
          = ((get_position width height rest).1,
             message :: (get_position width height rest).2)).
Proof.
  rewrite get_position_cons.
  destruct (get_position width height rest) as [res out] eqn:Hrest.
  case_bool_decide; [left; eauto|].
  case_bool_decide; [left; eauto|].
  case_bool_decide; [right; right; eauto|].
  destruct (fullmatch pos) as [[[column_str row_str] is_flag]|] eqn:Hmatch;
    [|right; right; eauto].
  apply fullmatch_Some in Hmatch as (_ & _ & Hd & Hne & _).
  rewrite py_int_digits by done. cbn zeta.
  destruct ((0 <=? letters_to_int column_str)
            && (letters_to_int column_str <? width)
            && (0 <=? digits_value row_str 0 - 1)
            && (digits_value row_str 0 - 1 <? height)) eqn:Hrange;
    [|right; right; eauto].
  right; left. do 3 eexists. split; [done|].
  repeat (apply andb_true_iff in Hrange as [Hrange ?]). lia.
Qed.

(** X3: a position that [get_position] returns is on the board: the row is
    in [0, height) and the column in [0, width). *)
Theorem get_position_in_range (width height : Z) (lines out : list string)
    (row column : Z) (flag : bool) :
  get_position width height lines = (Returned (row, column, flag), out) ->
  0 <= row < height /\ 0 <= column < width.
Proof.
  revert out. induction lines as [|pos rest IH]; intros out H; [done|].
  destruct (get_position_step width height pos rest)
    as [(s & Hs & _)|[(r & c & f & Hret & Hr & Hc)|(message & Hnext)]].
  - congruence.
  - rewrite Hret in H. by simplify_eq.
  - rewrite Hnext in H.
    destruct (get_position width height rest) as [res out'].
    simplify_eq/=. eauto.
Qed.

Lemma get_position_in_range_witness :
  get_position 5 4 ["zz"; "h"; "F4"; "c3f"; "A1"]
    = (Returned (2, 2, true),
       ["Invalid position." +:+ newline; help_text;
        "Position out of range." +:+ newline])
  /\ 0 <= 2 < 4 /\ 0 <= 2 < 5.
Proof.
  split; [reflexivity|].
  apply (get_position_in_range 5 4 ["zz"; "h"; "F4"; "c3f"; "A1"]
           ["Invalid position." +:+ newline; help_text;
            "Position out of range." +:+ newline] 2 2 true).
  reflexivity.
Defined.







End Position.

(** ** More on the board-size prompt *)

Section MapInfoMore.

Lemma get_mapinfo_cons (line : string) (rest : list string) :
  get_mapinfo (line :: rest) =
    let l := split line in
    let printed :=
      if bool_decide (length l ≠ 3%nat)
      then ["Number of inputs do not match."%string] else [] in
    match get_mapinfo_try l with
    | Ok (Return width height mines) => (Ok (width, height, mines), printed)
    | Ok (Again message) =>
        let '(res, out) := get_mapinfo rest in
        (res, printed ++ message :: out)
    | Raise ValueError =>
        let '(res, out) := get_mapinfo rest in
        (res, printed ++ "Please input integers."%string :: out)
    | Raise e => (Raise e, printed)
    end.
Proof. reflexivity. Qed.




(** X7: whatever is typed, a triple that [get_mapinfo] returns satisfies
    the constraints on the size; and when every line typed has three tokens
    [get_mapinfo] raises nothing but [EOFError], at the end of the input. *)
Theorem get_mapinfo_results (lines : list string) :
  (forall width height mines out,
     get_mapinfo lines = (Ok (width, height, mines), out) ->
     valid_size width height mines)
  /\ (Forall (fun line => length (split line) = 3%nat) lines ->
      forall e out, get_mapinfo lines = (Raise e, out) -> e = EOFError).
Proof.
  split.
  { intros width height mines out. apply get_mapinfo_returns_valid. }
  induction 1 as [|line rest Hline Hrest IH]; intros e out H.
  { simpl in H. by simplify_eq. }
  rewrite get_mapinfo_cons in H. cbn zeta in H.
  pose proof (get_mapinfo_try_three (split line) Hline) as Hindex.
  destruct (get_mapinfo_try (split line)) as [[w h m|message]|e'] eqn:Htry.
  - by simplify_eq.
  - destruct (get_mapinfo rest) as [res out']. simplify_eq. eauto.
  - destruct e'; try done.
    + destruct (get_mapinfo rest) as [res out']. simplify_eq. eauto.
    + exfalso. clear H. unfold get_mapinfo_try in Htry.
      repeat match type of Htry with
      | rbind ?m _ = _ =>
          let H' := fresh in
          destruct m as [?|?] eqn:H'; cbn [rbind] in Htry;
          [|first [ apply py_int_raises in H'; congruence
                  | unfold list_item in H'; case_match; congruence ]]
      end.
      repeat case_match; congruence.
Qed.

End MapInfoMore.

(** ** More on board generation *)

Section InitMapMore.

Lemma length_chosen_le (draws : list nat) (width height mines : Z)
    (avoid : Z * Z) :
  0 <= mines ->
  (length (chosen draws width height mines avoid) <= Z.to_nat mines)%nat.
Proof.
  intros Hm. unfold chosen, slice_to.
  rewrite (proj2 (Z.leb_le 0 mines) Hm), length_take. lia.
Qed.

(** X8: for every width and height that are not negative, every number of
    mines and every centre, [init_map] returns a map of that height and
    width that holds only 0 and 1, with a 0 on every cell of the board
    that is the centre or adjacent to it. *)
Theorem init_map_safe (draws : list nat) (w h : nat) (mines : Z)
    (ar ac : nat) :
  exists map,
    init_map draws (Z.of_nat w) (Z.of_nat h) mines (Z.of_nat ar, Z.of_nat ac)
      = Ok map
    /\ is_array h w map
    /\ mine_map map
    /\ forall r c, (r < h)%nat -> (c < w)%nat -> adjacent (ar, ac) (r, c) ->
         cell map r c = Some 0.
Proof.
  destruct (init_map_cells draws w h mines (Z.of_nat ar, Z.of_nat ac))
    as (map & Hmap & Harr & Hcells).
  exists map. split; [done|]. split; [done|]. split.
  - intros r c x Hx. destruct (cell_lt h w _ _ _ _ Harr Hx) as [Hr Hc].
    rewrite Hcells in Hx by done. case_decide; simplify_eq; auto.
  - intros r c Hr Hc Hadj. by eapply init_map_safe_zone.
Qed.

(** X9: for a size that passes the validation, the map has at most
    [mines] mines; it has exactly [mines] when the board is at least three
    cells wide and three cells high. *)
Theorem init_map_mine_count (draws : list nat) (w h : nat) (mines : Z)
    (avoid : Z * Z) (map : ndarray) :
  valid_size (Z.of_nat w) (Z.of_nat h) mines ->
  init_map draws (Z.of_nat w) (Z.of_nat h) mines avoid = Ok map ->
  Z.of_nat (mines_on map) <= mines
  /\ ((3 <= w)%nat -> (3 <= h)%nat -> Z.of_nat (mines_on map) = mines).
Proof.
  intros Hvalid Hmap. split.
  - destruct Hvalid as (Hw & Hh & Hm & _).
    rewrite (init_map_mines_on draws w h mines avoid) by (done || lia).
    pose proof (length_chosen_le draws (Z.of_nat w) (Z.of_nat h) mines avoid).
    lia.
  - intros Hw Hh. by eapply init_map_exact_count.
Qed.

Lemma init_map_mine_count_witness :
  let map := [[0; 0; 0; 0; 0]; [0; 0; 0; 1; 0]; [1; 0; 1; 0; 0]; [0; 0; 0; 0; 0]] in
  valid_size (Z.of_nat 5) (Z.of_nat 4) 3
  /\ init_map [3; 4; 5]%nat (Z.of_nat 5) (Z.of_nat 4) 3 (0, 0) = Ok map
  /\ Z.of_nat (mines_on map) <= 3
  /\ ((3 <= 5)%nat -> (3 <= 4)%nat -> Z.of_nat (mines_on map) = 3).
Proof.
  intros map.
  assert (valid_size (Z.of_nat 5) (Z.of_nat 4) 3) as Hvalid
    by (unfold valid_size; simpl; lia).
  split; [done|]. split; [reflexivity|].
  by apply (init_map_mine_count [3; 4; 5]%nat 5 4 3 (0, 0) map).
Defined.

End InitMapMore.

(** ** Moves on a board *)

Section Moves.

(** What a reveal that returns has done: nothing on a Flagged cell, one
    cell written on a cell whose value is not 0, a flood on a cell of
    value 0. *)
Lemma update_visible_reveal_inv (h w : nat) (value visible res : ndarray)
    (pos : Z * Z) :
  is_array h w value -> is_array h w visible ->
  update_visible value visible pos false = Ok res ->
  exists r c v x,
    locate visible pos = Ok (r, c)
    /\ cell visible r c = Some v /\ cell value r c = Some x
    /\ ((v = -1 /\ res = visible)
        \/ (v <> -1 /\ x <> 0
            /\ res = alter (fun row => <[c := 1]> row) r visible)
        \/ (v <> -1 /\ x = 0)).
Proof.
  intros Hval Hvis Hres. unfold update_visible in Hres.
  apply rbind_Ok in Hres as (v & Hv & Hres).
  apply getitem_Ok in Hv as (r & c & Hloc & Hv).
  destruct (locate_lt _ _ _ _ Hloc) as [Hr Hc].
  rewrite (rows_array h w visible) in Hr by done.
  rewrite (cols_array h w visible) in Hc by (done || lia).
  destruct (cell_is_Some h w value r c Hval Hr Hc) as [x Hx].
  exists r, c, v, x. do 3 (split; [done|]).
  destruct (Z.eqb_spec v (-1)) as [->|Hne].
  { left. by simplify_eq. }
  right.
  rewrite (getitem_located value pos r c x) in Hres;
    [|by rewrite (locate_same_shape h w value visible) | done].
  cbn [rbind] in Hres.
  destruct (Z.eqb_spec x 0) as [Hx0|Hx0]; [by right|].
  left. rewrite (setitem_located _ _ r c) in Hres by done. by simplify_eq.
Qed.

(** What a flag command that returns has done. *)
Lemma update_visible_flag_inv (value visible res : ndarray) (pos : Z * Z) :
  update_visible value visible pos true = Ok res ->
  exists r c v,
    locate visible pos = Ok (r, c) /\ cell visible r c = Some v
    /\ ((v = 0 /\ res = alter (fun row => <[c := -1]> row) r visible)
        \/ (v = -1 /\ res = alter (fun row => <[c := 0]> row) r visible)
        \/ (v <> 0 /\ v <> -1 /\ res = visible)).
Proof.
  intros Hres. unfold update_visible in Hres.
  apply rbind_Ok in Hres as (v & Hv & Hres).
  apply getitem_Ok in Hv as (r & c & Hloc & Hv).
  exists r, c, v. do 2 (split; [done|]).
  destruct (Z.eqb_spec v 0) as [->|Hv0].
  { left. rewrite (setitem_located _ _ r c) in Hres by done. by simplify_eq. }
  destruct (Z.eqb_spec v (-1)) as [->|Hv1].
  { right; left. rewrite (setitem_located _ _ r c) in Hres by done.
    by simplify_eq. }
  right; right. by simplify_eq.
Qed.

(** X10: whatever the command, [update_visible] returns a visibility map
    of the same shape in which every cell that was Revealed still is: no
    reveal and no flag command ever hides or flags a Revealed cell. *)
Theorem update_visible_keeps_revealed (h w : nat) (value visible res : ndarray)
    (pos : Z * Z) (flag : bool) :
  is_array h w value -> is_array h w visible ->
  update_visible value visible pos flag = Ok res ->
  is_array h w res
  /\ forall r c, cell visible r c = Some 1 -> cell res r c = Some 1.
Proof.
  intros Hval Hvis Hres. destruct flag.
  - apply update_visible_flag_inv in Hres
      as (r & c & v & Hloc & Hv & [(-> & ->)|[(-> & ->)|(_ & _ & ->)]]);
      [| |done].
    + split; [by apply is_array_set|]. intros r' c' Hshown.
      rewrite cell_set. case_bool_decide; [|done]. simplify_eq.
    + split; [by apply is_array_set|]. intros r' c' Hshown.
      rewrite cell_set. case_bool_decide; [|done]. simplify_eq.
  - destruct (update_visible_reveal_inv h w value visible res pos Hval Hvis Hres)
      as (r & c & v & x & Hloc & Hv & Hx & [(-> & ->)|[(Hne & Hx0 & ->)|(Hne & ->)]]);
      [done| |].
    + split; [by apply is_array_set|]. intros r' c' Hshown.
      rewrite cell_set. case_bool_decide as Heq; [|done].
      injection Heq as -> ->. by rewrite Hv.
    + destruct (update_visible_flood h w value visible pos (r, c) v)
        as (res' & Hres' & Harr & Hcells); [done..|].
      rewrite Hres in Hres'. injection Hres' as <-.
      split; [done|]. intros r' c' Hshown.
      assert (fg (interchange value) (r, c) = true) as Hfg
        by (apply fg_interchange; eauto).
      destruct (label_component h w _ (r, c)
                  (is_array_interchange h w value Hval) Hfg)
        as (here & Hhere & _ & _).
      rewrite (update_visible_flood_eq h w value visible pos (r, c) v here)
        in Hres by done.
      injection Hres as <-. rewrite cell_paint, Hshown.
      destruct (cell_lt h w _ _ _ _ Hvis Hshown) as [Hr' Hc'].
      destruct (cell_is_Some h w
        (where_ (fun x => x >=? 1)
           (convolve (paint (zeros_like visible)
              (where_ (Z.eqb here) (label (interchange value)).1) 1))) r' c')
        as [b ->]; [|done..|by destruct b].
      apply is_array_where, is_array_convolve, is_array_paint;
        [by apply is_array_fmap | by apply is_array_where, is_array_label,
                                      is_array_interchange].
Qed.

Lemma update_visible_keeps_revealed_witness :
  let value := [[0; 0; 0]; [0; 1; 1]; [0; 1; -1]] in
  let visible := [[0; -1; 0]; [0; 0; 0]; [0; 0; 1]] in
  let res := [[1; 1; 1]; [1; 1; 1]; [1; 1; 1]] in
  is_array 3 3 value /\ is_array 3 3 visible
  /\ update_visible value visible (0, 0) false = Ok res
  /\ is_array 3 3 res
  /\ forall r c, cell visible r c = Some 1 -> cell res r c = Some 1.
Proof.
  intros value visible res.
  assert (is_array 3 3 value) as Hval by (split; [done | by repeat constructor]).
  assert (is_array 3 3 visible) as Hvis by (split; [done | by repeat constructor]).
  do 2 (split; [done|]). split; [reflexivity|].
  by apply (update_visible_keeps_revealed 3 3 value visible res (0, 0) false).
Defined.

Lemma is_array_get_value (h w : nat) (map value : ndarray) :
  is_array h w map -> get_value map = Ok value -> is_array h w value.
Proof.
  intros Harr. rewrite get_value_Ok. intros [= <-].
  apply is_array_paint; [by apply is_array_convolve | by apply is_array_where].
Qed.

(** On a map built by [get_value], a cell adjacent to a cell of value 0
    has no mine. *)
Lemma zero_no_mine_neighbour (map value : ndarray) (q' q : nat * nat) :
  mine_map map -> get_value map = Ok value ->
  cell value q'.1 q'.2 = Some 0 -> adjacent q' q ->
  cell value q.1 q.2 <> Some (-1).
Proof.
  intros Hmap Hval Hzero Hadj Hmine.
  rewrite (cell_get_value map value _ _ Hval) in Hzero.
  rewrite (cell_get_value map value _ _ Hval) in Hmine.
  destruct (cell map q'.1 q'.2) as [m'|] eqn:Hm'; [|done].
  destruct (cell map q.1 q.2) as [m|] eqn:Hm; [|done].
  cbn -[Z.eqb int8 window_sum] in Hzero, Hmine.
  destruct (window_sum_ones map q'.1 q'.2 Hmap) as [Hrange' Hpos'].
  destruct (window_sum_ones map q.1 q.2 Hmap) as [Hrange _].
  destruct (Z.eqb_spec 1 m') as [<-|Hne']; [done|].
  rewrite int8_small in Hzero by lia.
  destruct (Z.eqb_spec 1 m) as [<-|Hne].
  - assert (window_sum map q'.1 q'.2 = 0) as Hsum by congruence.
    assert (1 <= window_sum map q'.1 q'.2); [|lia].
    apply Hpos'. exists q. split; [by destruct q' | done].
  - rewrite int8_small in Hmine by lia.
    assert (window_sum map q.1 q.2 = -1) as Hsum by congruence. lia.
Qed.

(** The shape of the visibility map is kept by every command. *)
Lemma is_array_update_visible (h w : nat) (value visible res : ndarray)
    (pos : Z * Z) (flag : bool) :
  is_array h w value -> is_array h w visible ->
  update_visible value visible pos flag = Ok res -> is_array h w res.
Proof.
  intros Hval Hvis Hres. destruct flag.
  - apply update_visible_flag_inv in Hres
      as (r & c & v & Hloc & Hv & [(-> & ->)|[(-> & ->)|(_ & _ & ->)]]);
      [by apply is_array_set..|done].
  - destruct (update_visible_reveal_inv h w value visible res pos Hval Hvis Hres)
      as (r & c & v & x & Hloc & Hv & Hx & [(-> & ->)|[(Hne & Hx0 & ->)|(Hne & ->)]]);
      [done | by apply is_array_set |].
    destruct (update_visible_flood h w value visible pos (r, c) v)
      as (res' & Hres' & Harr & _); [done..|].
    rewrite Hres in Hres'. by injection Hres' as <-.
Qed.

(** A command on a cell of the board always returns. *)
Lemma update_visible_total (h w : nat) (value visible : ndarray) (pos : Z * Z)
    (r c : nat) (flag : bool) :
  is_array h w value -> is_array h w visible ->
  locate visible pos = Ok (r, c) ->
  exists res, update_visible value visible pos flag = Ok res.
Proof.
  intros Hval Hvis Hloc.
  destruct (locate_lt _ _ _ _ Hloc) as [Hr Hc].
  rewrite (rows_array h w visible) in Hr by done.
  rewrite (cols_array h w visible) in Hc by (done || lia).
  destruct (cell_is_Some h w visible r c Hvis Hr Hc) as [v Hv].
  destruct (cell_is_Some h w value r c Hval Hr Hc) as [x Hx].
  destruct flag.
  - unfold update_visible.
    rewrite (getitem_located visible pos r c v) by done. cbn [rbind].
    destruct (v =? 0); [rewrite (setitem_located _ _ r c) by done; eauto|].
    destruct (v =? -1); [rewrite (setitem_located _ _ r c) by done; eauto|].
    eauto.
  - destruct (Z.eq_dec v (-1)) as [->|Hne].
    { unfold update_visible.
      rewrite (getitem_located visible pos r c (-1)) by done. cbn. eauto. }
    destruct (Z.eq_dec x 0) as [->|Hx0].
    { destruct (update_visible_flood h w value visible pos (r, c) v)
        as (res & Hres & _); [done..|]. eauto. }
    unfold update_visible.
    rewrite (getitem_located visible pos r c v) by done. cbn [rbind].
    rewrite (proj2 (Z.eqb_neq v (-1)) Hne).
    rewrite (getitem_located value pos r c x);
      [|by rewrite (locate_same_shape h w value visible) | done].
    cbn [rbind]. rewrite (proj2 (Z.eqb_neq x 0) Hx0).
    rewrite (setitem_located _ _ r c) by done. eauto.
Qed.

(** A command other than the reveal of an unflagged mine reveals no
    mine. *)
Lemma update_visible_no_mine (h w : nat) (value visible res : ndarray)
    (pos : Z * Z) (r c : nat) (x v : Z) (flag : bool) :
  in_play h w value visible ->
  locate visible pos = Ok (r, c) ->
  cell value r c = Some x -> cell visible r c = Some v ->
  update_visible value visible pos flag = Ok res ->
  flag = true \/ x <> -1 \/ v = -1 ->
  no_mine_revealed value res.
Proof.
  intros (Hboard & Hvis & Hnone) Hloc Hx Hv Hres Hsafe.
  assert (is_array h w value) as Hval.
  { destruct Hboard as (map & Harr & Hmap & Hvalue).
    by apply (is_array_get_value h w map). }
  intros r' c' Hmine. destruct flag.
  - apply update_visible_flag_inv in Hres
      as (r0 & c0 & v0 & Hloc0 & Hv0 & [(-> & ->)|[(-> & ->)|(_ & _ & ->)]]);
      [| |by apply Hnone].
    + rewrite cell_set. case_bool_decide as Heq; [|by apply Hnone].
      injection Heq as -> ->. by rewrite Hv0.
    + rewrite cell_set. case_bool_decide as Heq; [|by apply Hnone].
      injection Heq as -> ->. by rewrite Hv0.
  - destruct (update_visible_reveal_inv h w value visible res pos Hval Hvis Hres)
      as (r0 & c0 & v0 & x0 & Hloc0 & Hv0 & Hx0
          & [(-> & ->)|[(Hne & Hnz & ->)|(Hne & ->)]]);
      rewrite Hloc in Hloc0; injection Hloc0 as <- <-.
    + by apply Hnone.
    + rewrite cell_set. case_bool_decide as Heq; [|by apply Hnone].
      injection Heq as -> ->.
      destruct Hsafe as [?|[?|?]]; [done | congruence | congruence].
    + destruct (update_visible_flood h w value visible pos (r, c) v0)
        as (res' & Hres' & _ & Hcells); [done..|].
      rewrite Hres in Hres'. injection Hres' as <-.
      destruct (cell_lt h w _ _ _ _ Hval Hmine) as [Hr' Hc'].
      destruct (cell_is_Some h w visible r' c' Hvis Hr' Hc') as [u Hu].
      destruct (Hcells (r', c') u Hu) as [_ Hout]. simpl in Hout.
      rewrite Hout; [rewrite <- Hu; by apply Hnone|].
      intros (q' & Hq' & Hadj).
      destruct Hboard as (map & Harr' & Hmap & Hvalue).
      pose proof (get_value_value_grid map value Hmap Hvalue) as Hgrid.
      assert (cell value q'.1 q'.2 = Some 0) as Hzero.
      { assert (fg (interchange value) q' = true) as Hfg.
        { eapply connected_fg; [done|]. apply fg_interchange. eauto. }
        apply fg_interchange in Hfg as (y & Hy & Hy0).
        pose proof (Hgrid _ _ _ Hy). rewrite Hy. f_equal. lia. }
      by apply (zero_no_mine_neighbour map value q' (r', c') Hmap Hvalue Hzero Hadj).
Qed.

(** X11: on a board in play, a command that is not the reveal of an
    unflagged mine leaves the board in play: the reveal of a cell without
    a mine, by itself or through a flood, and the flag commands never
    reveal a mine. *)
Theorem update_visible_in_play (h w : nat) (value visible res : ndarray)
    (pos : Z * Z) (flag : bool) :
  in_play h w value visible ->
  update_visible value visible pos flag = Ok res ->
  flag = true \/ getitem value pos <> Ok (-1) \/ getitem visible pos = Ok (-1) ->
  in_play h w value res.
Proof.
  intros Hplay Hres Hsafe.
  pose proof Hplay as (Hboard & Hvis & Hnone).
  assert (is_array h w value) as Hval.
  { destruct Hboard as (map & Harr & Hmap & Hvalue).
    by apply (is_array_get_value h w map). }
  split; [done|].
  split; [by apply (is_array_update_visible h w value visible res pos flag)|].
  assert (exists v, getitem visible pos = Ok v) as [v Hv].
  { unfold update_visible in Hres.
    destruct flag; apply rbind_Ok in Hres as (v & Hv & _); eauto. }
  pose proof Hv as Hgv. apply getitem_Ok in Hv as (r & c & Hloc & Hv).
  destruct (locate_lt _ _ _ _ Hloc) as [Hr Hc].
  rewrite (rows_array h w visible) in Hr by done.
  rewrite (cols_array h w visible) in Hc by (done || lia).
  destruct (cell_is_Some h w value r c Hval Hr Hc) as [x Hx].
  apply (update_visible_no_mine h w value visible res pos r c x v flag);
    [done..|].
  destruct Hsafe as [?|[Hsafe|Hsafe]]; [by left | right; left | right; right].
  - intros ->. destruct Hsafe. apply (getitem_located value pos r c); [|done].
    by rewrite (locate_same_shape h w value visible).
  - congruence.
Qed.

Lemma update_visible_in_play_witness :
  let map := [[0; 0; 0]; [0; 0; 0]; [0; 0; 1]] in
  let value := [[0; 0; 0]; [0; 1; 1]; [0; 1; -1]] in
  let visible := [[0; -1; 0]; [0; 0; 0]; [0; 0; -1]] in
  let res := [[1; 1; 1]; [1; 1; 1]; [1; 1; -1]] in
  in_play 3 3 value visible
  /\ update_visible value visible (0, 0) false = Ok res
  /\ getitem value (0, 0) <> Ok (-1)
  /\ in_play 3 3 value res.
Proof.
  intros map value visible res.
  assert (in_play 3 3 value visible) as Hplay.
  { split; [|split].
    - exists map. split; [split; [done | by repeat constructor]|].
      split; [|reflexivity].
      intros [|[|[|r]]] [|[|[|c]]] x Hx; cbv in Hx; simplify_eq; auto.
    - split; [done | by repeat constructor].
    - intros [|[|[|r]]] [|[|[|c]]] Hx; cbv in Hx; by simplify_eq. }
  split; [done|]. split; [reflexivity|]. split; [done|].
  apply (update_visible_in_play 3 3 value visible res (0, 0) false);
    [done | reflexivity | by right; left].
Defined.

(** X12: the reveal of a mine that is not Flagged sets that one cell to
    Revealed and [check_end] then answers Lost; the reveal of a Flagged
    mine changes nothing and [check_end] does not answer Lost. *)
Theorem reveal_mine (h w : nat) (value visible : ndarray) (pos : Z * Z)
    (r c : nat) (v : Z) :
  is_array h w value -> is_array h w visible ->
  locate visible pos = Ok (r, c) ->
  cell value r c = Some (-1) -> cell visible r c = Some v ->
  (v <> -1 ->
     exists res,
       update_visible value visible pos false = Ok res
       /\ cell res r c = Some 1
       /\ (forall r' c', (r', c') <> (r, c) ->
             cell res r' c' = cell visible r' c')
       /\ check_end value res pos = Ok Lost)
  /\ (v = -1 ->
       update_visible value visible pos false = Ok visible
       /\ check_end value visible pos <> Ok Lost).
Proof.
  intros Hval Hvis Hloc Hmine Hv.
  assert (locate value pos = Ok (r, c)) as Hloc'
    by (by rewrite (locate_same_shape h w value visible)).
  split.
  - intros Hne. exists (alter (fun row => <[c := 1]> row) r visible).
    assert (cell (alter (fun row => <[c := 1]> row) r visible) r c = Some 1)
      as Hshown by (rewrite cell_set, bool_decide_eq_true_2 by done; by rewrite Hv).
    split; [|split; [done|split]].
    + unfold update_visible.
      rewrite (getitem_located visible pos r c v) by done. cbn [rbind].
      rewrite (proj2 (Z.eqb_neq v (-1)) Hne).
      rewrite (getitem_located value pos r c (-1)) by done. cbn [rbind].
      by apply setitem_located.
    + intros r' c' Hother. by rewrite cell_set, bool_decide_eq_false_2.
    + rewrite (check_end_located h w value _ pos r c (-1) 1);
        [done | done | by apply is_array_set | done..].
  - intros ->. split.
    + unfold update_visible.
      by rewrite (getitem_located visible pos r c (-1)) by done.
    + rewrite (check_end_located h w value visible pos r c (-1) (-1)) by done.
      cbn. by destruct (np_any _).
Qed.

Lemma reveal_mine_witness :
  let value := [[0; 1; -1]] in
  let visible := [[1; 1; 0]] in
  is_array 1 3 value /\ is_array 1 3 visible
  /\ locate visible (0, 2) = Ok (0%nat, 2%nat)
  /\ cell value 0 2 = Some (-1) /\ cell visible 0 2 = Some 0
  /\ exists res,
       update_visible value visible (0, 2) false = Ok res
       /\ cell res 0 2 = Some 1
       /\ (forall r' c', (r', c') <> (0%nat, 2%nat) ->
             cell res r' c' = cell visible r' c')
       /\ check_end value res (0, 2) = Ok Lost.
Proof.
  intros value visible.
  assert (is_array 1 3 value) as Hval by (split; [done | by repeat constructor]).
  assert (is_array 1 3 visible) as Hvis by (split; [done | by repeat constructor]).
  do 2 (split; [done|]). do 3 (split; [reflexivity|]).
  by apply (reveal_mine 1 3 value visible (0, 2) 0 2 0 Hval Hvis).
Defined.

(** The map of the first move and its value map. *)
Lemma first_map (draws : list nat) (w h : nat) (mines : Z) (r c : nat) :
  (r < h)%nat -> (c < w)%nat ->
  exists map value,
    init_map draws (Z.of_nat w) (Z.of_nat h) mines (Z.of_nat r, Z.of_nat c)
      = Ok map
    /\ is_array h w map /\ mine_map map
    /\ get_value map = Ok value
    /\ cell value r c = Some 0.
Proof.
  intros Hr Hc.
  destruct (init_map_cells draws w h mines (Z.of_nat r, Z.of_nat c))
    as (map & Hmap & Harr & Hcells).
  assert (mine_map map) as Hmine.
  { intros r' c' x Hx. destruct (cell_lt h w _ _ _ _ Harr Hx) as [Hr' Hc'].
    rewrite Hcells in Hx by done. case_decide; simplify_eq; auto. }
  exists map. eexists. do 3 (split; [done|]). split; [apply get_value_Ok|].
  rewrite (cell_get_value map _ r c (get_value_Ok map)).
  rewrite (init_map_safe_zone draws w h mines r c r c map) by done.
  cbn -[int8 window_sum].
  destruct (window_sum_ones map r c Hmine) as [Hrange Hpos].
  rewrite int8_small by lia. f_equal.
  destruct (Z_le_gt_dec 1 (window_sum map r c)) as [Hone|]; [|lia].
  apply Hpos in Hone as ([r' c'] & Hadj & Hq). simpl in Hq.
  destruct (cell_lt h w _ _ _ _ Harr Hq) as [Hr' Hc'].
  rewrite (init_map_safe_zone draws w h mines r c r' c' map) in Hq by done.
  done.
Qed.

(** X13: the cell of the first move always gets the value 0: the map that
    [init_map] builds around it has no mine on it nor next to it, so
    [get_value] counts no mine there. *)
Theorem first_move_value_zero (draws : list nat) (w h : nat) (mines : Z)
    (r c : nat) :
  (r < h)%nat -> (c < w)%nat ->
  exists map value,
    init_map draws (Z.of_nat w) (Z.of_nat h) mines (Z.of_nat r, Z.of_nat c)
      = Ok map
    /\ get_value map = Ok value
    /\ cell value r c = Some 0.
Proof.
  intros Hr Hc.
  destruct (first_map draws w h mines r c Hr Hc)
    as (map & value & Hmap & _ & _ & Hvalue & Hzero).
  by exists map, value.
Qed.

Lemma first_move_value_zero_witness :
  (2 < 4)%nat /\ (0 < 5)%nat
  /\ exists map value,
       init_map [3; 4; 5]%nat (Z.of_nat 5) (Z.of_nat 4) 3
         (Z.of_nat 2, Z.of_nat 0) = Ok map
       /\ get_value map = Ok value
       /\ cell value 2 0 = Some 0.
Proof.
  split; [lia|]. split; [lia|].
  apply (first_move_value_zero [3; 4; 5]%nat 5 4 3 2 0); lia.
Defined.

(** X14: one move of a round, on a cell of the board. The move always
    goes through. It ends the round as lost only when it reveals a mine
    that is not Flagged, and never on the first move; it ends the round
    as won exactly when the cells it leaves Revealed are the cells
    without a mine; otherwise the round goes on, with no mine Revealed
    and some cell without a mine still hidden. The value map is the one
    the move was played on. *)
Theorem make_move_sound (draws : list nat) (h w : nat) (mines : Z)
    (board : option (ndarray * ndarray)) (r c : nat) (flag : bool) :
  board_in_play h w board -> (r < h)%nat -> (c < w)%nat ->
  let move :=
    make_move draws (Z.of_nat w) (Z.of_nat h) mines board
      (Z.of_nat r) (Z.of_nat c) flag in
  exists value before shown,
    board_of draws (Z.of_nat w) (Z.of_nat h) mines board
      (Z.of_nat r) (Z.of_nat c) = Ok (value, before)
    /\ in_play h w value before
    /\ update_visible value before (Z.of_nat r, Z.of_nat c) flag = Ok shown
    /\ ((move = Ok (Ends GameOver value shown)
         /\ flag = false /\ board <> None
         /\ cell value r c = Some (-1) /\ cell before r c <> Some (-1))
        \/ (move = Ok (Ends Win value (ones_like value))
            /\ all_safe_revealed value shown /\ no_mine_revealed value shown)
        \/ (move = Ok (GoesOn value shown)
            /\ in_play h w value shown /\ ~ all_safe_revealed value shown)).
Proof.
  intros Hboard Hr Hc move.
  assert (exists value before,
    board_of draws (Z.of_nat w) (Z.of_nat h) mines board
      (Z.of_nat r) (Z.of_nat c) = Ok (value, before)
    /\ in_play h w value before
    /\ (board = None -> cell value r c = Some 0))
    as (value & before & Hbo & Hplay & Hfirst).
  { destruct board as [[value visible]|].
    - exists value, visible. by split.
    - destruct (first_map draws w h mines r c Hr Hc)
        as (map & value & Hmap & Harr & Hmine & Hvalue & Hzero).
      exists value, (zeros_like map). split; [|split; [|done]].
      + unfold board_of. rewrite Hmap. cbn [rbind]. by rewrite Hvalue.
      + split; [by exists map|]. split; [by apply is_array_fmap|].
        intros r' c' _. unfold zeros_like. rewrite cell_fmap.
        by destruct (cell map r' c'). }
  exists value, before.
  pose proof Hplay as (Hfrom & Hvis & Hnone).
  assert (is_array h w value) as Hval.
  { destruct Hfrom as (map & Harr & Hmap & Hvalue).
    by apply (is_array_get_value h w map). }
  assert (locate before (Z.of_nat r, Z.of_nat c) = Ok (r, c)) as Hloc.
  { apply locate_of_nat.
    - by rewrite (rows_array h w before).
    - rewrite (cols_array h w before) by (done || lia). done. }
  assert (locate value (Z.of_nat r, Z.of_nat c) = Ok (r, c)) as Hloc'
    by (by rewrite (locate_same_shape h w value before)).
  destruct (update_visible_total h w value before _ r c flag Hval Hvis Hloc)
    as [shown Hshown].
  exists shown. do 3 (split; [done|]).
  assert (is_array h w shown) as Harr
    by (by apply (is_array_update_visible h w value before shown
                    (Z.of_nat r, Z.of_nat c) flag)).
  destruct (cell_is_Some h w value r c Hval Hr Hc) as [x Hx].
  destruct (cell_is_Some h w before r c Hvis Hr Hc) as [v Hv].
  destruct (cell_is_Some h w shown r c Harr Hr Hc) as [v' Hv'].
  assert (move =
    (end_ <~ Ok (if (x =? -1) && (v' =? 1) then Lost
                 else if np_any (zip_with (zip_with xorb)
                                   (where_ (fun x => negb (x =? -1)) value)
                                   (where_ (Z.eqb 1) shown))
                      then Ongoing else Won) ;;
     if end_ =? 0 then Ok (Ends GameOver value shown)
     else if end_ =? 1 then Ok (Ends Win value (ones_like value))
     else Ok (GoesOn value shown))) as Hmove.
  { unfold move, make_move. rewrite Hbo. cbn [rbind fst snd].
    rewrite Hshown. cbn [rbind].
    by rewrite (check_end_located h w value shown _ r c x v'). }
  rewrite Hmove. clear Hmove. cbn [rbind].
  assert ({flag = true \/ x <> -1 \/ v = -1}
          + {flag = false /\ x = -1 /\ v <> -1}) as [Hsafe|(-> & -> & Hne)].
  { destruct flag; [by left; left|].
    destruct (Z.eq_dec x (-1)) as [->|]; [|by left; right; left].
    destruct (Z.eq_dec v (-1)) as [->|]; [by left; right; right | by right]. }
  - right.
    pose proof (update_visible_no_mine h w value before shown _ r c x v flag
                  Hplay Hloc Hx Hv Hshown Hsafe) as Hnm.
    assert ((x =? -1) && (v' =? 1) = false) as ->.
    { destruct (Z.eqb_spec x (-1)) as [->|]; [|done].
      destruct (Z.eqb_spec v' 1) as [->|]; [|done].
      by destruct (Hnm r c Hx). }
    destruct (np_any _) eqn:Hany.
    + right. split; [reflexivity|]. split; [done|].
      intros Hall.
      assert (np_any (zip_with (zip_with xorb)
                (where_ (fun x => negb (x =? -1)) value)
                (where_ (Z.eqb 1) shown)) = false) as Hnone'; [|congruence].
      apply (xor_test_false h w value shown Hval Harr).
      intros r1 c1 x1 v1 Hx1 Hv1. split.
      * intros Hx1'. pose proof (Hall r1 c1 x1 Hx1 Hx1'). congruence.
      * intros -> ->. by destruct (Hnm r1 c1 Hx1).
    + left. split; [reflexivity|]. split; [|done].
      pose proof (proj1 (xor_test_false h w value shown Hval Harr) Hany) as Hiff.
      intros r1 c1 x1 Hx1 Hx1'.
      destruct (cell_lt h w _ _ _ _ Hval Hx1) as [Hr1 Hc1].
      destruct (cell_is_Some h w shown r1 c1 Harr Hr1 Hc1) as [v1 Hv1].
      rewrite Hv1. f_equal. by apply (Hiff r1 c1 x1 v1).
  - left.
    assert (v' = 1) as ->.
    { destruct (update_visible_reveal_inv h w value before shown _ Hval Hvis Hshown)
        as (r0 & c0 & v0 & x0 & Hloc0 & Hv0 & Hx0
            & [(-> & ->)|[(Hne0 & Hnz & ->)|(Hne0 & ->)]]);
        rewrite Hloc in Hloc0; injection Hloc0 as <- <-.
      - congruence.
      - rewrite cell_set, bool_decide_eq_true_2, Hv in Hv' by done.
        simpl in Hv'. congruence.
      - congruence. }
    split; [reflexivity|]. split; [done|]. split; [|split; [done|congruence]].
    intros ->. specialize (Hfirst eq_refl). congruence.
Qed.

Lemma make_move_sound_witness :
  let map := [[0; 0; 0]; [0; 0; 0]; [0; 0; 1]] in
  let value := [[0; 0; 0]; [0; 1; 1]; [0; 1; -1]] in
  let visible := [[0; -1; 0]; [0; 0; 0]; [0; 0; 0]] in
  let move := make_move [] (Z.of_nat 3) (Z.of_nat 3) 1 (Some (value, visible))
                (Z.of_nat 2) (Z.of_nat 2) false in
  board_in_play 3 3 (Some (value, visible)) /\ (2 < 3)%nat
  /\ exists value' before shown,
       board_of [] (Z.of_nat 3) (Z.of_nat 3) 1 (Some (value, visible))
         (Z.of_nat 2) (Z.of_nat 2) = Ok (value', before)
       /\ in_play 3 3 value' before
       /\ update_visible value' before (Z.of_nat 2, Z.of_nat 2) false = Ok shown
       /\ ((move = Ok (Ends GameOver value' shown)
            /\ false = false /\ Some (value, visible) <> None
            /\ cell value' 2 2 = Some (-1) /\ cell before 2 2 <> Some (-1))
           \/ (move = Ok (Ends Win value' (ones_like value'))
               /\ all_safe_revealed value' shown
               /\ no_mine_revealed value' shown)
           \/ (move = Ok (GoesOn value' shown)
               /\ in_play 3 3 value' shown
               /\ ~ all_safe_revealed value' shown)).
Proof.
  intros map value visible move.
  assert (board_in_play 3 3 (Some (value, visible))) as Hplay.
  { split; [|split].
    - exists map. split; [split; [done | by repeat constructor]|].
      split; [|reflexivity].
      intros [|[|[|r]]] [|[|[|c]]] x Hx; cbv in Hx; simplify_eq; auto.
    - split; [done | by repeat constructor].
    - intros [|[|[|r]]] [|[|[|c]]] Hx; cbv in Hx; by simplify_eq. }
  split; [done|]. split; [lia|].
  apply (make_move_sound [] 3 3 1 (Some (value, visible)) 2 2 false Hplay); lia.
Defined.

End Moves.

(* ===================================================================== *)
(** ** The display *)
(* ===================================================================== *)

Section Drawing.

Lemma glyph_Some (key : Z) : is_Some (glyph key) <-> -1 <= key <= 8.
Proof.
  split.
  - intros [text Htext]. destruct (decide (-1 <= key <= 8)); [done|].
    unfold glyph in Htext.
    repeat (rewrite (proj2 (Z.eqb_neq key _)) in Htext by lia).
    discriminate Htext.
  - intros Hkey.
    assert (key = -1 \/ key = 0 \/ key = 1 \/ key = 2 \/ key = 3 \/ key = 4
            \/ key = 5 \/ key = 6 \/ key = 7 \/ key = 8) as Hin by lia.
    repeat (destruct Hin as [->|Hin]; [by eexists|]).
    rewrite Hin. by eexists.
Qed.

Lemma draw_seq_Drawn (ds : list drawing) :
  (exists out, draw_seq ds = Drawn out) <->
  forall d, d ∈ ds -> exists out, d = Drawn out.
Proof.
  induction ds as [|d ds IH]; simpl.
  - split; [intros _ d Hd; by apply elem_of_nil in Hd | eauto].
  - split.
    + intros [out Hout] d' Hd'. apply elem_of_cons in Hd' as [->|Hd'].
      * destruct d; [eauto | done..].
      * apply IH; [|done]. destruct d; [|done..].
        destruct (draw_seq ds); [eauto | done..].
    + intros Hall. destruct (Hall d) as [out ->]; [by left|].
      destruct (proj2 IH) as [rest ->]; [|eauto].
      intros d' Hd'. apply Hall. by right.
Qed.

(** A cell of the board is drawn from its visibility and, when it is
    Revealed, its value. *)
Lemma draw_cell_in (h w : nat) (value visible : ndarray) (r c : nat) (x v : Z) :
  is_array h w value -> is_array h w visible ->
  cell value r c = Some x -> cell visible r c = Some v ->
  draw_cell value visible r c =
    if v =? 1 then
      match glyph x with
      | Some text => Drawn text
      | None => KeyFails x
      end
    else if v =? 0 then Drawn glyph_covered
    else if v =? -1 then Drawn glyph_flagged
    else Drawn "".
Proof.
  intros Hval Hvis Hx Hv.
  destruct (cell_lt h w _ _ _ _ Hval Hx) as [Hr Hc].
  assert (locate visible (Z.of_nat r, Z.of_nat c) = Ok (r, c)) as Hloc.
  { apply locate_of_nat.
    - by rewrite (rows_array h w visible).
    - rewrite (cols_array h w visible) by (done || lia). done. }
  unfold draw_cell.
  rewrite (getitem_located visible _ r c v) by done.
  rewrite (getitem_located value _ r c x);
    [done | by rewrite (locate_same_shape h w value visible) | done].
Qed.

(** [draw_map] prints when the value of every Revealed cell is a key of
    the dictionary. *)
Lemma draw_map_keys (h w : nat) (value visible : ndarray) :
  is_array h w value -> is_array h w visible ->
  (forall r c x, cell visible r c = Some 1 -> cell value r c = Some x ->
     -1 <= x <= 8) ->
  exists out, draw_map value visible = Drawn out.
Proof.
  intros Hval Hvis Hkeys. unfold draw_map. apply draw_seq_Drawn.
  rewrite (rows_array h w value) by done. intros d Hd.
  apply elem_of_cons in Hd as [->|Hd]; [eauto|].
  apply elem_of_cons in Hd as [->|Hd]; [eauto|].
  apply elem_of_app in Hd as [Hd|Hd];
    [|apply list_elem_of_singleton in Hd as ->; eauto].
  apply list_elem_of_fmap in Hd as (r & -> & Hr).
  apply elem_of_seq in Hr. unfold draw_row.
  apply draw_seq_Drawn. intros d Hd.
  apply elem_of_cons in Hd as [->|Hd]; [eauto|].
  apply elem_of_app in Hd as [Hd|Hd];
    [|apply list_elem_of_singleton in Hd as ->; eauto].
  apply list_elem_of_fmap in Hd as (c & -> & Hc).
  apply elem_of_seq in Hc.
  rewrite (cols_array h w value) in Hc by (done || lia).
  destruct (cell_is_Some h w value r c) as [x Hx]; [done || lia..|].
  destruct (cell_is_Some h w visible r c) as [v Hv]; [done || lia..|].
  rewrite (draw_cell_in h w value visible r c x v) by done.
  destruct (Z.eqb_spec v 1) as [->|_].
  - destruct (proj2 (glyph_Some x)) as [text ->]; eauto.
  - destruct (v =? 0); [eauto|]. destruct (v =? -1); eauto.
Qed.

(** X15: on maps of one shape, [draw_map] prints the board without an
    error exactly when the value of every Revealed cell is a key of the
    dictionary of cell texts, that is, lies between -1 and 8. *)
Theorem draw_map_draws (h w : nat) (value visible : ndarray) :
  is_array h w value -> is_array h w visible ->
  (exists out, draw_map value visible = Drawn out) <->
  forall r c x, cell visible r c = Some 1 -> cell value r c = Some x ->
    -1 <= x <= 8.
Proof.
  intros Hval Hvis. unfold draw_map. rewrite draw_seq_Drawn.
  rewrite (rows_array h w value) by done. split.
  - intros Hall r c x Hv Hx.
    destruct (cell_lt h w _ _ _ _ Hval Hx) as [Hr Hc].
    destruct (Hall (draw_row value visible r)) as [out Hout].
    { do 2 right. apply elem_of_app. left.
      apply list_elem_of_fmap. exists r. split; [done|].
      apply elem_of_seq. lia. }
    unfold draw_row in Hout.
    rewrite (cols_array h w value) in Hout by (done || lia).
    pose proof (proj1 (draw_seq_Drawn _) (ex_intro _ out Hout)) as Hcells.
    destruct (Hcells (draw_cell value visible r c)) as [text Htext].
    { right. apply elem_of_app. left.
      apply list_elem_of_fmap. exists c. split; [done|].
      apply elem_of_seq. lia. }
    rewrite (draw_cell_in h w value visible r c x 1) in Htext by done.
    simpl in Htext. apply glyph_Some.
    destruct (glyph x); [done|discriminate].
  - intros Hkeys. apply draw_seq_Drawn.
    rewrite <- (rows_array h w value) by done.
    by apply (draw_map_keys h w value visible).
Qed.

Lemma draw_map_draws_witness :
  let value := [[0; 1; -1]] in
  let visible := [[1; 1; 0]] in
  is_array 1 3 value /\ is_array 1 3 visible
  /\ ((exists out, draw_map value visible = Drawn out) <->
      forall r c x, cell visible r c = Some 1 -> cell value r c = Some x ->
        -1 <= x <= 8).
Proof.
  intros value visible.
  assert (is_array 1 3 value) as Hval by (split; [done | by repeat constructor]).
  assert (is_array 1 3 visible) as Hvis by (split; [done | by repeat constructor]).
  do 2 (split; [done|]).
  exact (draw_map_draws 1 3 value visible Hval Hvis).
Defined.

(** X16: [draw_map] shows nothing of the cells that are not Revealed: two
    value maps that agree on the Revealed cells are drawn alike, text or
    error, under the same visibility map. *)
Theorem draw_map_hides (h w : nat) (value1 value2 visible : ndarray) :
  is_array h w value1 -> is_array h w value2 -> is_array h w visible ->
  (forall r c, cell visible r c = Some 1 -> cell value1 r c = cell value2 r c) ->
  draw_map value1 visible = draw_map value2 visible.
Proof.
  intros Hval1 Hval2 Hvis Hagree.
  assert (cols value1 = cols value2) as Hcols
    by apply (cols_same_shape h w value1 value2 Hval1 Hval2).
  unfold draw_map.
  rewrite Hcols, (rows_array h w value1), (rows_array h w value2) by done.
  do 4 f_equal. apply Forall_fmap_ext, Forall_forall. intros r Hr.
  apply elem_of_seq in Hr. unfold draw_row. rewrite Hcols.
  do 3 f_equal. apply Forall_fmap_ext, Forall_forall. intros c Hc.
  apply elem_of_seq in Hc.
  rewrite (cols_array h w value2) in Hc by (done || lia).
  destruct (cell_is_Some h w value1 r c) as [x1 Hx1]; [done || lia..|].
  destruct (cell_is_Some h w value2 r c) as [x2 Hx2]; [done || lia..|].
  destruct (cell_is_Some h w visible r c) as [v Hv]; [done || lia..|].
  rewrite (draw_cell_in h w value1 visible r c x1 v) by done.
  rewrite (draw_cell_in h w value2 visible r c x2 v) by done.
  destruct (Z.eqb_spec v 1) as [->|_]; [|done].
  pose proof (Hagree r c Hv). by assert (x1 = x2) as -> by congruence.
Qed.

Lemma draw_map_hides_witness :
  let value1 := [[0; 1; -1]] in
  let value2 := [[0; 1; 1]] in
  let visible := [[1; 1; -1]] in
  is_array 1 3 value1 /\ is_array 1 3 value2 /\ is_array 1 3 visible
  /\ draw_map value1 visible = draw_map value2 visible.
Proof.
  intros value1 value2 visible.
  assert (is_array 1 3 value1) as Hval1 by (split; [done | by repeat constructor]).
  assert (is_array 1 3 value2) as Hval2 by (split; [done | by repeat constructor]).
  assert (is_array 1 3 visible) as Hvis by (split; [done | by repeat constructor]).
  do 3 (split; [done|]).
  apply (draw_map_hides 1 3 value1 value2 visible Hval1 Hval2 Hvis).
  intros [|r] [|[|[|c]]] Hv; cbv in Hv; by simplify_eq.
Defined.

(** X17: the maps of a game are always drawn: with a value map computed
    by [get_value] from a mine map, [draw_map] prints the board whatever
    the visibility map of that shape, in play, lost with a mine Revealed
    or won with every cell Revealed. *)
Theorem draw_map_in_game (h w : nat) (map value visible : ndarray) :
  is_array h w map -> mine_map map -> get_value map = Ok value ->
  is_array h w visible ->
  (exists out, draw_map value visible = Drawn out)
  /\ exists out, draw_map value (ones_like value) = Drawn out.
Proof.
  intros Harr Hmap Hvalue Hvis.
  assert (is_array h w value) as Hval by (by apply (is_array_get_value h w map)).
  pose proof (get_value_value_grid map value Hmap Hvalue) as Hgrid.
  split.
  - apply (draw_map_keys h w value visible); [done..|].
    intros r c x _ Hx. by apply (Hgrid r c).
  - apply (draw_map_keys h w value (ones_like value));
      [done | by apply is_array_fmap|].
    intros r c x _ Hx. by apply (Hgrid r c).
Qed.

Lemma draw_map_in_game_witness :
  let map := [[0; 0; 0]; [0; 0; 0]; [0; 0; 1]] in
  let value := [[0; 0; 0]; [0; 1; 1]; [0; 1; -1]] in
  let visible := [[1; 1; 1]; [1; 1; -1]; [1; 1; 1]] in
  is_array 3 3 map /\ mine_map map /\ get_value map = Ok value
  /\ is_array 3 3 visible
  /\ (exists out, draw_map value visible = Drawn out)
  /\ exists out, draw_map value (ones_like value) = Drawn out.
Proof.
  intros map value visible.
  assert (is_array 3 3 map) as Harr by (split; [done | by repeat constructor]).
  assert (is_array 3 3 visible) as Hvis by (split; [done | by repeat constructor]).
  assert (mine_map map) as Hmap.
  { intros [|[|[|r]]] [|[|[|c]]] x Hx; cbv in Hx; simplify_eq; auto. }
  split; [done|]. split; [done|]. split; [reflexivity|]. split; [done|].
  by apply (draw_map_in_game 3 3 map value visible).
Defined.

Lemma length_spaces (n : nat) : String.length (spaces n) = n.
Proof. induction n as [|n IH]; [done|]. simpl. by rewrite IH. Qed.

Lemma length_int_to_letters (n : Z) :
  0 < n ->
  String.length (int_to_letters n)
    = S (String.length (int_to_letters ((n - 1) / 26))).
Proof.
  intros Hn. rewrite int_to_letters_pos, length_append by done. simpl. lia.
Qed.

Lemma length_decimal (n : Z) :
  10 <= n -> String.length (decimal n) = S (String.length (decimal (n / 10))).
Proof.
  intros Hn. rewrite decimal_large, length_append by done. simpl. lia.
Qed.

(** X18: on a board of up to 999 rows and columns, the label of every
    column and the number of every row take three characters, the width
    of the text of a cell, so the labels stand over their columns. *)
Theorem draw_map_labels_width (n : Z) :
  1 <= n <= 999 ->
  String.length (center (int_to_letters n) NUM_WIDTH) = 3%nat
  /\ String.length (rjust n) = 3%nat.
Proof.
  intros Hn. split.
  - assert (1 <= String.length (int_to_letters n) <= 3)%nat as Hlen.
    { rewrite length_int_to_letters by lia.
      destruct (Z_le_gt_dec n 26) as [Hle|Hgt].
      { rewrite int_to_letters_nonpos; [simpl; lia|].
        assert ((n - 1) / 26 < 1); [|lia].
        apply Z.div_lt_upper_bound; lia. }
      assert (1 <= (n - 1) / 26) by (apply Z.div_le_lower_bound; lia).
      assert ((n - 1) / 26 < 39) by (apply Z.div_lt_upper_bound; lia).
      rewrite length_int_to_letters by lia.
      destruct (Z_le_gt_dec ((n - 1) / 26) 26) as [Hle|Hgt'].
      { rewrite int_to_letters_nonpos; [simpl; lia|].
        assert (((n - 1) / 26 - 1) / 26 < 1); [|lia].
        apply Z.div_lt_upper_bound; lia. }
      assert (1 <= ((n - 1) / 26 - 1) / 26)
        by (apply Z.div_le_lower_bound; lia).
      assert (((n - 1) / 26 - 1) / 26 < 2)
        by (apply Z.div_lt_upper_bound; lia).
      rewrite length_int_to_letters by lia.
      rewrite int_to_letters_nonpos; [simpl; lia|].
      assert ((((n - 1) / 26 - 1) / 26 - 1) / 26 < 1); [|lia].
      apply Z.div_lt_upper_bound; lia. }
    unfold center. rewrite !length_append, !length_spaces.
    change NUM_WIDTH with 3%nat.
    destruct Hlen as [Hone Hthree].
    destruct (String.length (int_to_letters n)) as [|[|[|[|k]]]];
      [lia|done..|lia].
  - unfold rjust, py_str.
    assert ((n <? 0) = false) as -> by (apply Z.ltb_ge; lia).
    rewrite length_append, length_spaces.
    assert (1 <= String.length (decimal n) <= 3)%nat; [|lia].
    destruct (Z_lt_dec n 10); [rewrite decimal_small by done; simpl; lia|].
    rewrite length_decimal by lia.
    assert (1 <= n / 10) by (apply Z.div_le_lower_bound; lia).
    assert (n / 10 < 100) by (apply Z.div_lt_upper_bound; lia).
    destruct (Z_lt_dec (n / 10) 10);
      [rewrite decimal_small by done; simpl; lia|].
    rewrite length_decimal by lia.
    assert (n / 10 / 10 < 10) by (apply Z.div_lt_upper_bound; lia).
    rewrite decimal_small by done. simpl. lia.
Qed.

Lemma draw_map_labels_width_witness :
  1 <= 28 <= 999
  /\ String.length (center (int_to_letters 28) NUM_WIDTH) = 3%nat
  /\ String.length (rjust 28) = 3%nat.
Proof.
  split; [lia|]. apply (draw_map_labels_width 28). lia.
Defined.

End Drawing.
